(** * ServerAdapter: a shallow embedding of [src/index.js]

    The adapter injects Firestore CRUD operations into a FireModel entity
    class.  This development embeds the adapter's operations as functions in
    a state-and-exception monad over an explicit store, and proves the
    properties of the specification against them.

    Layout: JavaScript values and strings, the query builder and the N-gram
    tokenizer, the store and its transactions, the adapter operations, and
    then the theorems. *)

From Stdlib Require Import ZArith QArith String Ascii List Lia.
From stdpp Require Import base gmap list.

(* ================================================================= *)
(** ** JavaScript values *)

(** A JavaScript string is a sequence of UTF-16 code units. *)
Abbreviation jsstring := (list Z) (only parsing).

(** ASCII literals of the source, as code units. *)
Definition str (s : string) : jsstring :=
  List.map (fun c => Z.of_nat (nat_of_ascii c)) (list_ascii_of_string s).

(** Numbers.  Every finite double is a rational; the adapter only adds one
    to integers and compares numbers with zero, so rationals carry all the
    cases it distinguishes (integers, fractions, the sign), next to [NaN]
    and the two infinities. *)
Inductive JsNumber :=
| Finite (q : Q)
| NaN
| Infinity (negative : bool).

Inductive JsVal :=
| VUndefined
| VNull
| VBool (b : bool)
| VNum (n : JsNumber)
| VStr (s : jsstring)
| VDate (t : Z)          (* a Date object, by its time value in ms *)
| VObject (id : nat).    (* any other object (array, map, ...), opaque *)

Definition VInt (z : Z) : JsVal := VNum (Finite (inject_Z z)).

(** [ToBoolean]. *)
Definition truthy (v : JsVal) : bool :=
  match v with
  | VUndefined | VNull => false
  | VBool b => b
  | VNum (Finite q) => negb (Qeq_bool q 0)
  | VNum NaN => false
  | VNum (Infinity _) => true
  | VStr s => negb (Nat.eqb (length s) 0)
  | VDate _ | VObject _ => true
  end.

(** [typeof v === "number"]. *)
Definition is_number (v : JsVal) : bool :=
  match v with VNum _ => true | _ => false end.

(** [v <= 0] for a number [v]; comparisons with [NaN] are false. *)
Definition num_le0 (n : JsNumber) : bool :=
  match n with
  | Finite q => Qle_bool q 0
  | NaN => false
  | Infinity negative => negative
  end.

(** [v === s] for a string literal [s]: only a string with the same code
    units is strictly equal to it. *)
Definition is_str (v : JsVal) (s : string) : bool :=
  match v with
  | VStr u => bool_decide (u = str s)
  | _ => false
  end.

(** [a || b]. *)
Definition js_or (a b : JsVal) : JsVal := if truthy a then a else b.

(** [arr[i]]: reading past the end of an array gives [undefined]. *)
Definition js_nth (l : list JsVal) (i : nat) : JsVal := nth i l VUndefined.

(* ================================================================= *)
(** ** Failures *)

(** The adapter throws [Error] objects that differ by their message; the
    messages fall into the classes below (the specification's taxonomy).
    [ExternalFailure] is a failure raised by a collaborator: a lifecycle
    hook, the validator, the converter or a caller's callback. *)
Inductive Error :=
| InvalidArgument        (* "... is required." / "callBack must be a function." /
                            "Invalid orderBy direction" / "Invalid limit value" /
                            "Search string (constraints) cannot be empty." *)
| InvalidQueryType       (* "Invalid query type: ..." *)
| PreconditionFailed     (* "The docId property is required ..." *)
| NotFound               (* "Could not find Autonumber document." /
                            "The document to be deleted did not exist." /
                            "Archived document not found ..." *)
| Disabled               (* "Autonumber is disabled." *)
| Overflow               (* "The maximum value for Autonumber has been reached." *)
| DependencyExists (collection : jsstring)
                         (* "Cannot delete because the associated document exists
                            in the <collection> collection." *)
| StoreFailure           (* raised by the store driver *)
| ExternalFailure (code : nat)
| OutsideModel.          (* input on which the embedding does not follow the
                            source (see [counter_view]) *)

Inductive Result (A : Type) :=
| Ok (a : A)
| Err (e : Error).
Arguments Ok {A} a.
Arguments Err {A} e.

(* ================================================================= *)
(** ** QueryConstraintBuilder *)

(** Modelled from the spec: the store predicate constructors [where],
    [orderBy] and [limit].  [index.js] calls them as free functions but
    neither defines nor imports them; per the specification each passes its
    arguments through to a store predicate, so a predicate is the
    constructor applied to the arguments it was given. *)
Inductive QueryConstraint :=
| QWhere (args : list JsVal)
| QOrderBy (field direction : JsVal)
| QLimit (n : JsVal).

(** The body of the [forEach] callback of [createQueries]: destructure
    [[type, ...args]], switch on [type], push onto [result] or throw. *)
Definition createQueries_step (result : list QueryConstraint)
    (constraint : list JsVal) : Result (list QueryConstraint) :=
  let type := js_nth constraint 0 in
  let args := tail constraint in
  if is_str type "where" then
    Ok (result ++ [QWhere args])
  else if is_str type "orderBy" then
    let direction := js_or (js_nth args 1) (VStr (str "asc")) in
    if negb (is_str direction "asc" || is_str direction "desc") then
      Err InvalidArgument
    else Ok (result ++ [QOrderBy (js_nth args 0) direction])
  else if is_str type "limit" then
    if negb (is_number (js_nth args 0))
       || match js_nth args 0 with VNum n => num_le0 n | _ => false end
    then Err InvalidArgument
    else Ok (result ++ [QLimit (js_nth args 0)])
  else Err InvalidQueryType.

(** [constraints.forEach(...)]: left to right, the first throw ends the call. *)
Fixpoint createQueries_from (result : list QueryConstraint)
    (constraints : list (list JsVal)) : Result (list QueryConstraint) :=
  match constraints with
  | [] => Ok result
  | constraint :: rest =>
      match createQueries_step result constraint with
      | Ok result' => createQueries_from result' rest
      | Err e => Err e
      end
  end.

Definition createQueries (constraints : list (list JsVal))
  : Result (list QueryConstraint) :=
  createQueries_from [] constraints.

(** The reading of the specification: a [limit] argument that is a positive
    integer. *)
Definition is_positive_integer (v : JsVal) : bool :=
  match v with
  | VNum (Finite q) =>
      Z.ltb 0 (Qnum q) && Z.eqb (Qnum q mod Zpos (Qden q)) 0
  | _ => false
  end.

(* ================================================================= *)
(** ** N-gram tokenizer *)

Definition is_high_surrogate (u : Z) : bool :=
  (Z.leb 0xD800 u && Z.leb u 0xDBFF)%Z.

Definition is_low_surrogate (u : Z) : bool :=
  (Z.leb 0xDC00 u && Z.leb u 0xDFFF)%Z.

Definition is_surrogate (u : Z) : bool :=
  is_high_surrogate u || is_low_surrogate u.

(** The code units that [String.prototype.trim] removes and that [\s]
    matches: ECMAScript WhiteSpace and LineTerminator. *)
Definition is_white_space (u : Z) : bool :=
  ((Z.leb 9 u && Z.leb u 13) || Z.eqb u 32 || Z.eqb u 0xA0 || Z.eqb u 0x1680
   || (Z.leb 0x2000 u && Z.leb u 0x200A) || Z.eqb u 0x2028 || Z.eqb u 0x2029
   || Z.eqb u 0x202F || Z.eqb u 0x205F || Z.eqb u 0x3000 || Z.eqb u 0xFEFF)%Z.

Fixpoint trimStart (s : jsstring) : jsstring :=
  match s with
  | u :: rest => if is_white_space u then trimStart rest else s
  | [] => []
  end.

Definition trim (s : jsstring) : jsstring :=
  rev (trimStart (rev (trimStart s))).

(** ~ * [ ] *)
Definition is_metacharacter (u : Z) : bool :=
  (Z.eqb u 126 || Z.eqb u 42 || Z.eqb u 91 || Z.eqb u 93)%Z.

(** One code unit matched by an alternative of
    [/[\uD800-\uDBFF]|[\uDC00-\uDFFF]|~|\*|\[|\]|\s+/g]. *)
Definition stripped (u : Z) : bool :=
  is_high_surrogate u || is_low_surrogate u || is_metacharacter u
  || is_white_space u.

(** [constraints.replace(/.../g, "")].  Every alternative of the pattern
    consumes code units of one class only (the last one a run of them), so
    replacing all matches by the empty string removes exactly the units of
    these classes. *)
Definition strip (s : jsstring) : jsstring :=
  List.filter (fun u => negb (stripped u)) s.

(** [[...s]]: the string iterator yields one element per code point, a
    high surrogate followed by a low one being a single element. *)
Fixpoint spread (s : jsstring) : list jsstring :=
  match s with
  | [] => []
  | u :: rest =>
      match rest with
      | v :: rest' =>
          if is_high_surrogate u && is_low_surrogate v
          then [u; v] :: spread rest'
          else [u] :: spread rest
      | [] => [[u]]
      end
  end.

(** [s.substring(a, b)] for [0 <= a <= b]; indices past the end are clamped. *)
Definition substring (s : jsstring) (a b : nat) : jsstring :=
  take (b - a) (drop a s).

(** [arr.map((_, i) => f(i))]. *)
Definition map_index {A B} (f : nat -> B) (arr : list A) : list B :=
  List.map f (seq 0 (length arr)).

(** [arr.slice(0, -1)]. *)
Definition slice_0_m1 {A} (arr : list A) : list A :=
  take (length arr - 1) arr.

(** [set.add(x)] on a set kept in insertion order. *)
Definition Set_add (set : list jsstring) (x : jsstring) : list jsstring :=
  if bool_decide (x ∈ set) then set else set ++ [x].

(** [[...new Set(arr)]]: first occurrences, in order. *)
Definition Set_from (arr : list jsstring) : list jsstring :=
  fold_left Set_add arr [].

Definition tokens_of (target : jsstring) : list jsstring :=
  Set_from
    (map_index (fun i => substring target i (i + 1)) (spread target)
     ++ slice_0_m1
          (map_index (fun i => substring target i (i + 2)) (spread target))).

(** [where(`tokenMap.${token}`, "==", true)]. *)
Definition tokenMapQuery (token : jsstring) : QueryConstraint :=
  QWhere [VStr (str "tokenMap." ++ token); VStr (str "=="); VBool true].

(** [result] is a [Set] of predicate objects; every [where(...)] call makes
    a fresh object, so [result.add] never finds its argument present and
    [Array.from(result)] lists one predicate per token, in order. *)
Definition createTokenMapQueries (constraints : jsstring)
  : Result (list QueryConstraint) :=
  if Nat.eqb (length constraints) 0 || Nat.eqb (length (trim constraints)) 0
  then Err InvalidArgument
  else
    let target := strip constraints in
    let tokens := tokens_of target in
    Ok (List.map tokenMapQuery tokens).

(** The specification's tokens: the contiguous substrings of one or two
    characters. *)
Definition is_gram (target token : jsstring) : Prop :=
  (length token = 1 \/ length token = 2) /\
  exists before after : jsstring, target = before ++ token ++ after.

(** The white space of the specification, unit by unit: what the
    pattern's [\s] matches. *)
Definition white_space_units : list Z :=
  [9; 10; 11; 12; 13; 32; 0xA0; 0x1680;
   0x2000; 0x2001; 0x2002; 0x2003; 0x2004; 0x2005; 0x2006; 0x2007; 0x2008;
   0x2009; 0x200A; 0x2028; 0x2029; 0x202F; 0x205F; 0x3000; 0xFEFF]%Z.

(** The code units the specification has stripped, in its words: white
    space, the metacharacters ~ * [ ], and the surrogate code units
    U+D800 to U+DFFF. *)
Definition stripped_as_specified (u : Z) : bool :=
  bool_decide (u ∈ white_space_units)
  || bool_decide (u ∈ [126; 42; 91; 93]%Z)
  || (Z.leb 0xD800 u && Z.leb u 0xDFFF).

(* ================================================================= *)
(** ** The store *)

(** A document is a map from field names to values; a document reference
    is a collection path and a document id. *)
Abbreviation Doc := (gmap (list Z) JsVal) (only parsing).
Abbreviation DocRef := (list Z * list Z)%type (only parsing).
Abbreviation Store := (gmap (list Z * list Z) (gmap (list Z) JsVal))
  (only parsing).

(** [obj.name], [undefined] when the property is absent. *)
Definition prop (obj : Doc) (name : string) : JsVal :=
  default VUndefined (obj !! str name).

Inductive Write :=
| WSet (ref : DocRef) (data : Doc)        (* set(ref, data) *)
| WUpdate (ref : DocRef) (fields : Doc)   (* update(ref, fields) *)
| WDelete (ref : DocRef).                 (* delete(ref) *)

(** Applying a write.  [update] requires the document to exist and
    replaces the named fields only. *)
Definition apply_write (db : Store) (w : Write) : option Store :=
  match w with
  | WSet ref data => Some (<[ref := data]> db)
  | WUpdate ref fields =>
      match db !! ref with
      | Some old => Some (<[ref := fields ∪ old]> db)
      | None => None
      end
  | WDelete ref => Some (base.delete ref db)
  end.

(** A commit applies the buffered writes in the order they were issued,
    all or nothing. *)
Fixpoint apply_writes (db : Store) (ws : list Write) : option Store :=
  match ws with
  | [] => Some db
  | w :: rest =>
      match apply_write db w with
      | Some db' => apply_writes db' rest
      | None => None
      end
  end.

(** The scope of a query: the documents of one collection, or of every
    collection with a given name whatever its ancestors. *)
Inductive Scope :=
| SCollection (path : jsstring)
| SCollectionGroup (name : jsstring).

(** The part of a path after its last slash. *)
Fixpoint last_segment (path : jsstring) : jsstring :=
  match path with
  | [] => []
  | u :: rest =>
      if bool_decide (47%Z ∈ rest) then last_segment rest
      else if Z.eqb u 47 then rest else path
  end.

Definition in_scope (scope : Scope) (ref : DocRef) : bool :=
  match scope with
  | SCollection path => bool_decide (ref.1 = path)
  | SCollectionGroup name => bool_decide (last_segment ref.1 = name)
  end.

(** What the model needs from its environment: the system clock, the ids
    the store generates and how the store evaluates a [where] filter on a
    field that a document has. *)
Record Driver := {
  clock : nat -> Z;         (* the successive readings of [new Date()] *)
  autoId : nat -> jsstring; (* the successive ids of [colRef.doc()] *)
  whereMatches : jsstring -> JsVal -> JsVal -> bool
                            (* operator, field value, operand *)
}.

(** Every access to the store, in the order the adapter makes it. *)
Inductive Access :=
| AGet (ref : DocRef)
| AQuery (scope : Scope) (field op : jsstring) (operand : JsVal)
| AWrite (w : Write)
| ACommit.

(** The writes among a list of accesses. *)
Fixpoint writes_of (accesses : list Access) : list Write :=
  match accesses with
  | [] => []
  | AWrite w :: rest => w :: writes_of rest
  | _ :: rest => writes_of rest
  end.

(* ================================================================= *)
(** ** State and control *)

(** A transaction handle names a write buffer. *)
Abbreviation Txn := nat (only parsing).

Record State := {
  this : gmap (list Z) JsVal;          (* the calling instance's properties *)
  db : gmap (list Z * list Z) (gmap (list Z) JsVal);
                                       (* the committed documents *)
  txns : gmap nat (list Write);        (* open transactions' buffers *)
  next_txn : nat;                      (* the next handle to hand out *)
  trace : list Access;                 (* store accesses so far *)
  ticks : nat;                         (* clock readings so far *)
  minted : nat                         (* store-generated ids so far *)
}.

Definition with_this (f : gmap (list Z) JsVal -> gmap (list Z) JsVal)
    (s : State) : State :=
  {| this := f (this s); db := db s; txns := txns s; next_txn := next_txn s;
     trace := trace s; ticks := ticks s; minted := minted s |}.

Definition with_db (d : gmap (list Z * list Z) (gmap (list Z) JsVal))
    (s : State) : State :=
  {| this := this s; db := d; txns := txns s; next_txn := next_txn s;
     trace := trace s; ticks := ticks s; minted := minted s |}.

Definition with_txns (f : gmap nat (list Write) -> gmap nat (list Write))
    (s : State) : State :=
  {| this := this s; db := db s; txns := f (txns s); next_txn := next_txn s;
     trace := trace s; ticks := ticks s; minted := minted s |}.

Definition with_next_txn (n : nat) (s : State) : State :=
  {| this := this s; db := db s; txns := txns s; next_txn := n;
     trace := trace s; ticks := ticks s; minted := minted s |}.

Definition log (a : Access) (s : State) : State :=
  {| this := this s; db := db s; txns := txns s; next_txn := next_txn s;
     trace := trace s ++ [a]; ticks := ticks s; minted := minted s |}.

Definition with_ticks (n : nat) (s : State) : State :=
  {| this := this s; db := db s; txns := txns s; next_txn := next_txn s;
     trace := trace s; ticks := n; minted := minted s |}.

Definition with_minted (n : nat) (s : State) : State :=
  {| this := this s; db := db s; txns := txns s; next_txn := next_txn s;
     trace := trace s; ticks := ticks s; minted := n |}.

(** A computation runs on the state and returns or throws; what it did to
    the state before throwing stays done. *)
Definition M (A : Type) : Type := State -> Result A * State.

#[global] Instance M_ret : MRet M := fun A a s => (Ok a, s).

#[global] Instance M_bind : MBind M := fun A B f m s =>
  match m s with
  | (Ok a, s') => f a s'
  | (Err e, s') => (Err e, s')
  end.

Definition throw {A} (e : Error) : M A := fun s => (Err e, s).

(** A collaborator's verdict, returned or thrown. *)
Definition lift {A} (r : Result A) : M A := fun s => (r, s).

Definition get_this : M (gmap (list Z) JsVal) := fun s => (Ok (this s), s).

(** [this[name] = v]. *)
Definition set_prop (name : jsstring) (v : JsVal) : M unit :=
  fun s => (Ok tt, with_this (insert name v) s).

(** [new Date()]. *)
Definition new_Date (drv : Driver) : M JsVal :=
  fun s => (Ok (VDate (clock drv (ticks s))), with_ticks (S (ticks s)) s).

(** [docRef.get()] and [transaction.get(docRef)]: the committed document,
    if any.  (Under serial execution a transaction sees the committed
    documents; that the driver wants a transaction's reads before its
    writes is not modelled.) *)
Definition doc_get (ref : DocRef) : M (option (gmap (list Z) JsVal)) :=
  fun s => (Ok (db s !! ref), log (AGet ref) s).

(** The document [doc] at [ref] answers [colRef.where(field, op, operand)],
    [colRef] being the collection or collection group [scope]. *)
Definition query_matches (drv : Driver) (scope : Scope) (field op : jsstring)
    (operand : JsVal) (ref : DocRef) (doc : gmap (list Z) JsVal) : bool :=
  in_scope scope ref
  && match doc !! field with
     | Some v => whereMatches drv op v operand
     | None => false
     end.

(** [queryRef.get()] and [transaction.get(queryRef)] for
    [colRef.where(field, op, operand).limit(1)], answering [snapshot.empty]. *)
Definition query_empty (drv : Driver) (scope : Scope) (field op : jsstring)
    (operand : JsVal) : M bool :=
  fun s =>
    (Ok (forallb (fun '(ref, doc) =>
                    negb (query_matches drv scope field op operand ref doc))
                 (map_to_list (db s))),
     log (AQuery scope field op operand) s).

(** [transaction.set], [transaction.update], [transaction.delete]: the
    write joins the handle's buffer. *)
Definition txn_write (txn : Txn) (w : Write) : M unit :=
  fun s =>
    (Ok tt,
     log (AWrite w)
       (with_txns (fun t => <[txn := default [] (t !! txn) ++ [w]]> t) s)).

(** [firestore.runTransaction(updateFunction)] under serial execution: a
    fresh handle, the function run once, then the commit; a throw or a
    failed commit discards the buffer. *)
Definition runTransaction {A} (updateFunction : Txn -> M A) : M A :=
  fun s =>
    let txn := next_txn s in
    let s0 := with_next_txn (S txn) (with_txns (insert txn []) s) in
    match updateFunction txn s0 with
    | (Ok a, s1) =>
        match apply_writes (db s1) (default [] (txns s1 !! txn)) with
        | Some db' =>
            (Ok a, log ACommit (with_db db' (with_txns (base.delete txn) s1)))
        | None => (Err StoreFailure, with_txns (base.delete txn) s1)
        end
    | (Err e, s1) => (Err e, with_txns (base.delete txn) s1)
    end.

(** [batch.commit()] for a batch holding [ws]. *)
Definition batch_commit (ws : list Write) : M unit :=
  fun s =>
    let s1 := foldl (fun s w => log (AWrite w) s) s ws in
    match apply_writes (db s1) ws with
    | Some db' => (Ok tt, log ACommit (with_db db' s1))
    | None => (Err StoreFailure, s1)
    end.

(* ================================================================= *)
(** ** The entity class and the call arguments *)

(** An entry of the static [hasMany] list. *)
Record Relation := {
  rtype : jsstring;       (* item.type: "collection" or "collectionGroup" *)
  collection : jsstring;  (* item.collection *)
  field : jsstring;       (* item.field *)
  condition : jsstring    (* item.condition: the filter's operator *)
}.

(** What the adapter asks of [this.constructor] and of the FireModel
    methods of the instance.  They live outside this repository and are
    taken as parameters. *)
Record ModelClass := {
  getCollectionPath : option jsstring -> jsstring;
  useAutonumber : bool;
  logicalDelete : bool;
  hasMany : list Relation;
  toFirestore : gmap (list Z) JsVal -> Result (gmap (list Z) JsVal);
                          (* the converter applied by [txn.set(docRef, this)] *)
  beforeCreate : gmap (list Z) JsVal -> Result (gmap (list Z) JsVal);
  beforeUpdate : gmap (list Z) JsVal -> Result (gmap (list Z) JsVal);
  beforeDelete : gmap (list Z) JsVal -> Result (gmap (list Z) JsVal);
  validate : gmap (list Z) JsVal -> Result unit
}.

(** The [callBack] argument: a function, or some other value.  A function
    is run with the transaction handle; the model covers functions that
    act through it: they read the committed documents and then throw or
    issue writes on the transaction. *)
Inductive CallBack :=
| CbFunction (f : gmap (list Z * list Z) (gmap (list Z) JsVal)
                  -> Result (list Write))
| CbValue (v : JsVal).

(** [callBack !== null && typeof callBack !== "function"], [undefined]
    having been replaced by the default [null]. *)
Definition callBack_rejected (callBack : CallBack) : bool :=
  match callBack with
  | CbFunction _ => false
  | CbValue VNull | CbValue VUndefined => false
  | CbValue _ => true
  end.

(** [if (callBack) await callBack(txn)]. *)
Definition run_callBack (callBack : CallBack) (txn : Txn) : M unit :=
  match callBack with
  | CbFunction f =>
      fun s =>
        match f (db s) with
        | Ok ws => (Ok tt, foldl (fun s w => snd (txn_write txn w s)) s ws)
        | Err e => (Err e, s)
        end
  | CbValue _ => mret tt
  end.

Record CreateArgs := {
  c_docId : option jsstring;
  c_useAutonumber : bool;
  c_transaction : option Txn;
  c_callBack : CallBack;
  c_prefix : option jsstring
}.

(** The arguments of [update] and of [delete]. *)
Record EditArgs := {
  e_transaction : option Txn;
  e_callBack : CallBack;
  e_prefix : option jsstring
}.

(** A string argument that may be [null]: its truth value. *)
Definition given (x : option jsstring) : bool :=
  match x with
  | Some s => negb (Nat.eqb (length s) 0)
  | None => false
  end.

(* ================================================================= *)
(** ** Autonumber codes *)

(** The decimal digits of a natural number, most significant first.
    [fuel] bounds the number of digits. *)
Fixpoint digits (fuel : nat) (n : Z) (acc : jsstring) : jsstring :=
  match fuel with
  | O => acc
  | S fuel' =>
      let acc' := (48 + n mod 10)%Z :: acc in
      if (n / 10 =? 0)%Z then acc' else digits fuel' (n / 10)%Z acc'
  end.

(** [String(n)] for a safe integer [n] (see [safe_integer] below): there
    JavaScript prints the decimal digits of the integer.  (From 2^53 on a
    number no longer holds every integer, and from 10^21 on [String] uses
    the exponent form; the embedding does not follow the source there.) *)
Definition String_of_integer (n : Z) : jsstring :=
  if (n <? 0)%Z
  then 45%Z :: digits (S (Z.to_nat (Z.log2 (- n)))) (- n)%Z []
  else digits (S (Z.to_nat (Z.log2 n))) n [].

(** [s.padStart(targetLength, "0")]. *)
Definition padStart0 (s : jsstring) (targetLength : Z) : jsstring :=
  replicate (Z.to_nat targetLength - length s) 48%Z ++ s.

(** The number a string of decimal digits denotes. *)
Definition decimal_value (s : jsstring) : Z :=
  fold_left (fun acc d => (10 * acc + (d - 48))%Z) s 0%Z.

Definition is_digit (u : Z) : bool := (Z.leb 48 u && Z.leb u 57)%Z.

Definition as_integer (v : JsVal) : option Z :=
  match v with
  | VNum (Finite q) =>
      if (Qnum q mod Zpos (Qden q) =? 0)%Z
      then Some (Qnum q / Zpos (Qden q))%Z
      else None
  | _ => None
  end.

Definition as_string (v : JsVal) : option jsstring :=
  match v with
  | VStr s => Some s
  | _ => None
  end.

(** The fields of a counter document the allocator computes with.  The data
    model fixes their types: [current] and [length] are integers and
    [field] is a string.  The embedding computes with them as integers,
    which is what the source does as long as [current], [current + 1] and
    [10 ^ length - 1] are safe integers (see [safe_integer]); what is
    proved of the numbers and codes of an allocation is stated for
    counters within these bounds.  For a negative [length],
    [10 ^ length - 1] is [-1] here and lies strictly between -1 and 0 in
    the source, which compares alike with every integer.  On a document
    of another shape the source goes through JavaScript's coercions, which
    the embedding does not follow: such a document has no view, the
    allocator of the embedding ends with [OutsideModel] on it, and that
    outcome stands for no behaviour of the source. *)
Definition counter_view (data : gmap (list Z) JsVal)
  : option (Z * Z * jsstring) :=
  current ← as_integer (prop data "current");
  length ← as_integer (prop data "length");
  field ← as_string (prop data "field");
  Some (current, length, field).

(** The counter document of the data model. *)
Definition counter_doc (status : bool) (current length : Z)
    (field : jsstring) : gmap (list Z) JsVal :=
  {[ str "status" := VBool status; str "current" := VInt current;
     str "length" := VInt length; str "field" := VStr field ]}.

(** The integers a JavaScript number holds exactly: those below 2^53 in
    absolute value ([Number.isSafeInteger]).  On them [current + 1], the
    comparison with [10 ^ length - 1] and [String] are those of the
    integers, when the results are safe integers too; this is where the
    allocator of the embedding, which computes in the integers, follows
    the source, and what is proved of the allocator's numbers is proved
    of counters within these bounds. *)
Definition safe_integer (n : Z) : Prop := (- 2 ^ 53 < n < 2 ^ 53)%Z.

(* ================================================================= *)
(** ** The adapter *)

(** [s.replace(/^\/|\/$/g, "")]. *)
Definition drop_leading_slash (s : jsstring) : jsstring :=
  match s with
  | u :: rest => if (u =? 47)%Z then rest else s
  | [] => []
  end.

Definition drop_edge_slashes (s : jsstring) : jsstring :=
  rev (drop_leading_slash (rev (drop_leading_slash s))).

(** [colRef.doc(id)] for a value [id]: the driver accepts a non-empty
    string only. *)
Definition doc (path : jsstring) (id : JsVal) : M DocRef :=
  match id with
  | VStr s =>
      if Nat.eqb (length s) 0 then throw StoreFailure else mret (path, s)
  | _ => throw StoreFailure
  end.

(** [colRef.doc()]: a reference with a store-generated id. *)
Definition doc_auto (drv : Driver) (path : jsstring) : M DocRef :=
  fun s => (Ok (path, autoId drv (minted s)), with_minted (S (minted s)) s).

(** [await this.beforeX()]: the hook works on the instance or throws. *)
Definition run_hook
    (hook : gmap (list Z) JsVal -> Result (gmap (list Z) JsVal)) : M unit :=
  fun s =>
    match hook (this s) with
    | Ok t => (Ok tt, with_this (fun _ => t) s)
    | Err e => (Err e, s)
    end.

Module ServerAdapter.
Section Adapter.

Context (drv : Driver) (cls : ModelClass).

(** [this.validate()]. *)
Definition run_validate : M unit :=
  fun s =>
    match validate cls (this s) with
    | Ok _ => (Ok tt, s)
    | Err e => (Err e, s)
    end.

(** [txn.set(docRef, this)] on a reference with the class's converter. *)
Definition txn_set_this (txn : Txn) (docRef : DocRef) : M unit :=
  t ← get_this;
  data ← lift (toFirestore cls t);
  txn_write txn (WSet docRef data).

(** The counter document of a collection. *)
Definition counterRef (prefix : option jsstring) : DocRef :=
  (str "Autonumbers", getCollectionPath cls prefix).

(** Lines 22-65.  The result is the deferred counter write
    [() => transaction.update(docRef, { current: newNumber })].  The
    numbers are those of the source for a counter within the bounds given
    at [counter_view]. *)
Definition setAutonumber (transaction : option Txn)
    (prefix : option jsstring) : M (M unit) :=
  match transaction with
  | None => throw InvalidArgument
  | Some txn =>
      let docRef := counterRef prefix in
      docSnap ← doc_get docRef;
      match docSnap with
      | None => throw NotFound
      | Some data =>
          if negb (truthy (prop data "status")) then throw Disabled
          else
            match counter_view data with
            | None => throw OutsideModel
            | Some (current, length, field) =>
                let newNumber := (current + 1)%Z in
                let maxValue := (10 ^ length - 1)%Z in
                if (newNumber >? maxValue)%Z then throw Overflow
                else
                  let newCode :=
                    padStart0 (String_of_integer newNumber) length in
                  set_prop field (VStr newCode);;
                  mret (txn_write txn
                          (WUpdate docRef
                             {[ str "current" := VInt newNumber ]}))
            end
      end
  end.

(** Lines 106-128. *)
Definition create_performTransaction (a : CreateArgs) (txn : Txn)
  : M DocRef :=
  updateAutonumber ←
    (if useAutonumber cls && c_useAutonumber a
     then k ← setAutonumber (Some txn) (c_prefix a); mret (Some k)
     else mret None);
  let collectionPath := getCollectionPath cls (c_prefix a) in
  docRef ←
    (if given (c_docId a)
     then mret (collectionPath, default [] (c_docId a))
     else doc_auto drv collectionPath);
  set_prop (str "docId") (VStr docRef.2);;
  createdAt ← new_Date drv;
  set_prop (str "createdAt") createdAt;;
  updatedAt ← new_Date drv;
  set_prop (str "updatedAt") updatedAt;;
  set_prop (str "uid") (VStr (str "cloud functions"));;
  txn_set_this txn docRef;;
  match updateAutonumber with
  | Some k => k
  | None => mret tt
  end;;
  run_callBack (c_callBack a) txn;;
  mret docRef.

(** Lines 91-139. *)
Definition create (a : CreateArgs) : M DocRef :=
  if callBack_rejected (c_callBack a) then throw InvalidArgument
  else
    run_hook (beforeCreate cls);;
    run_validate;;
    match c_transaction a with
    | Some transaction => create_performTransaction a transaction
    | None => runTransaction (create_performTransaction a)
    end.

(** Lines 370-383. *)
Definition update_performTransaction (a : EditArgs) (txn : Txn)
  : M DocRef :=
  let collectionPath := getCollectionPath cls (e_prefix a) in
  t ← get_this;
  docRef ← doc collectionPath (prop t "docId");
  updatedAt ← new_Date drv;
  set_prop (str "updatedAt") updatedAt;;
  set_prop (str "uid") (VStr (str "cloud functions"));;
  txn_set_this txn docRef;;
  run_callBack (e_callBack a) txn;;
  mret docRef.

(** Lines 355-394. *)
Definition update (a : EditArgs) : M DocRef :=
  if callBack_rejected (e_callBack a) then throw InvalidArgument
  else
    t ← get_this;
    if negb (truthy (prop t "docId")) then throw PreconditionFailed
    else
      run_hook (beforeUpdate cls);;
      run_validate;;
      match e_transaction a with
      | Some transaction => update_performTransaction a transaction
      | None => runTransaction (update_performTransaction a)
      end.

(** The query scope of one [hasMany] item, lines 403-411. *)
Definition relation_scope (prefix : option jsstring) (item : Relation)
  : Scope :=
  let collectionPath :=
    if bool_decide (rtype item = str "collection") && given prefix
    then drop_edge_slashes (default [] prefix ++ str "/" ++ collection item)
    else collection item in
  if bool_decide (rtype item = str "collection")
  then SCollection collectionPath
  else SCollectionGroup (collection item).

(** The [for ... of] loop of lines 402-424; [None] is [false]. *)
Fixpoint hasChild_loop (prefix : option jsstring) (docId : JsVal)
    (items : list Relation) : M (option Relation) :=
  match items with
  | [] => mret None
  | item :: rest =>
      empty ← query_empty drv (relation_scope prefix item) (field item)
                (condition item) docId;
      if negb empty then mret (Some item)
      else hasChild_loop prefix docId rest
  end.

(** Lines 396-429.  With or without a transaction the query reads the
    committed documents. *)
Definition hasChild (transaction : option Txn) (prefix : option jsstring)
  : M (option Relation) :=
  t ← get_this;
  if negb (truthy (prop t "docId")) then throw PreconditionFailed
  else hasChild_loop prefix (prop t "docId") (hasMany cls).

(** Lines 469-495. *)
Definition delete_performTransaction (a : EditArgs)
    (collectionPath : jsstring) (docRef : DocRef) (txn : Txn) : M unit :=
  hasChild ← hasChild (Some txn) (e_prefix a);
  match hasChild with
  | Some item => throw (DependencyExists (collection item))
  | None =>
      (if logicalDelete cls
       then
         sourceDocSnap ← doc_get docRef;
         match sourceDocSnap with
         | None => throw NotFound
         | Some sourceDocData =>
             t ← get_this;
             archiveDocRef ←
               doc (collectionPath ++ str "_archive") (prop t "docId");
             txn_write txn (WSet archiveDocRef sourceDocData)
         end
       else mret tt);;
      txn_write txn (WDelete docRef);;
      run_callBack (e_callBack a) txn
  end.

(** Lines 451-506. *)
Definition delete (a : EditArgs) : M unit :=
  if callBack_rejected (e_callBack a) then throw InvalidArgument
  else
    t ← get_this;
    if negb (truthy (prop t "docId")) then throw PreconditionFailed
    else
      run_hook (beforeDelete cls);;
      let collectionPath := getCollectionPath cls (e_prefix a) in
      t ← get_this;
      docRef ← doc collectionPath (prop t "docId");
      match e_transaction a with
      | Some transaction =>
          delete_performTransaction a collectionPath docRef transaction
      | None =>
          runTransaction (delete_performTransaction a collectionPath docRef)
      end.

(** Lines 508-538. *)
Definition restore (docId : option jsstring) (prefix : option jsstring)
  : M DocRef :=
  if negb (given docId) then throw InvalidArgument
  else
    let collectionPath := getCollectionPath cls prefix in
    let archivePath := collectionPath ++ str "_archive" in
    let archiveDocRef := (archivePath, default [] docId) in
    docSnapshot ← doc_get archiveDocRef;
    match docSnapshot with
    | None => throw NotFound
    | Some data =>
        let docRef := (collectionPath, default [] docId) in
        batch_commit [WDelete archiveDocRef; WSet docRef data];;
        mret docRef
    end.

End Adapter.
End ServerAdapter.

(* ================================================================= *)
(** ** Observations *)

(** The store accesses made between two states. *)
Definition accesses_since (s s' : State) : list Access :=
  drop (length (trace s)) (trace s').

(** The properties lines 119-122 assign, in that order. *)
Definition stamp (docId : jsstring) (createdAt updatedAt : JsVal)
    (t : gmap (list Z) JsVal) : gmap (list Z) JsVal :=
  <[str "uid" := VStr (str "cloud functions")]>
    (<[str "updatedAt" := updatedAt]>
       (<[str "createdAt" := createdAt]>
          (<[str "docId" := VStr docId]> t))).

(** One allocation under serial execution: the allocator and then its
    deferred counter write, in a transaction of their own. *)
Definition allocation (cls : ModelClass) (prefix : option jsstring)
  : M unit :=
  runTransaction (fun txn =>
    updateAutonumber ← ServerAdapter.setAutonumber cls (Some txn) prefix;
    updateAutonumber).

(** [n] allocation attempts in a row.  Each outcome is the failure, or the
    code found on the instance under [field]. *)
Fixpoint attempts (cls : ModelClass) (prefix : option jsstring)
    (field : jsstring) (n : nat) (s : State) : list (Result JsVal) * State :=
  match n with
  | O => ([], s)
  | S n' =>
      let (r, s1) := allocation cls prefix s in
      let outcome :=
        match r with
        | Ok _ => Ok (default VUndefined (this s1 !! field))
        | Err e => Err e
        end in
      let (outcomes, s2) := attempts cls prefix field n' s1 in
      (outcome :: outcomes, s2)
  end.

(** The code of a number: its decimal string padded with zeros. *)
Definition code_of (length n : Z) : jsstring :=
  padStart0 (String_of_integer n) length.

(** The codes c+1, ..., c+n. *)
Definition codes_from (length c : Z) (n : nat) : list (Result JsVal) :=
  List.map (fun i => Ok (VStr (code_of length (c + Z.of_nat i)))) (seq 1 n).

(** The counter document of the collection is enabled, stands at [c], has
    width [length] and names [field]. *)
Definition counter_at (cls : ModelClass) (prefix : option jsstring)
    (length : Z) (field : jsstring) (s : State) (c : Z) : Prop :=
  exists data,
    db s !! ServerAdapter.counterRef cls prefix = Some data
    /\ truthy (prop data "status") = true
    /\ counter_view data = Some (c, length, field).

(** The relation [item] has a dependent record of [docId] in [db]. *)
Definition has_dependent (drv : Driver) (prefix : option jsstring)
    (docId : JsVal) (db : gmap (list Z * list Z) (gmap (list Z) JsVal))
    (item : Relation) : Prop :=
  exists ref doc,
    db !! ref = Some doc
    /\ query_matches drv (ServerAdapter.relation_scope prefix item)
         (field item) (condition item) docId ref doc = true.

(** The document a write is about. *)
Definition write_ref (w : Write) : DocRef :=
  match w with
  | WSet ref _ | WUpdate ref _ | WDelete ref => ref
  end.

(** The writes a callback issues when run on the documents [d]. *)
Definition callBack_writes (callBack : CallBack)
    (d : gmap (list Z * list Z) (gmap (list Z) JsVal)) : list Write :=
  match callBack with
  | CbFunction f =>
      match f d with
      | Ok ws => ws
      | Err _ => []
      end
  | CbValue _ => []
  end.

(** The callback issues no write on [refs]. *)
Definition callBack_spares (callBack : CallBack) (refs : list DocRef)
  : Prop :=
  forall d w, w ∈ callBack_writes callBack d -> write_ref w ∉ refs.

(* ================================================================= *)
(** ** A concrete setting *)

(** A clock that advances by one millisecond per reading, ids "id0",
    "id1", ..., and equality of strings for the operator "==". *)
Definition demo_driver : Driver :=
  {| clock := fun i => (1700000000000 + Z.of_nat i)%Z;
     autoId := fun i => str "id" ++ String_of_integer (Z.of_nat i);
     whereMatches := fun op v operand =>
       match v, operand with
       | VStr a, VStr b => bool_decide (op = str "==") && bool_decide (a = b)
       | _, _ => false
       end |}.

(** A clock that stands still. *)
Definition frozen_driver : Driver :=
  {| clock := fun _ => 1700000000000%Z;
     autoId := autoId demo_driver;
     whereMatches := whereMatches demo_driver |}.

(** Customers, archived on deletion, numbered on creation, referenced by
    the [customerId] of Sites. *)
Definition Customers : ModelClass :=
  {| getCollectionPath := fun prefix =>
       if given prefix then default [] prefix ++ str "/Customers"
       else str "Customers";
     useAutonumber := true;
     logicalDelete := true;
     hasMany := [ {| rtype := str "collection"; collection := str "Sites";
                     field := str "customerId"; condition := str "==" |} ];
     toFirestore := fun t => Ok t;
     beforeCreate := fun t => Ok t;
     beforeUpdate := fun t => Ok t;
     beforeDelete := fun t => Ok t;
     validate := fun _ => Ok tt |}.


Definition initial (t : gmap (list Z) JsVal)
    (d : gmap (list Z * list Z) (gmap (list Z) JsVal)) : State :=
  {| this := t; db := d; txns := ∅; next_txn := 0; trace := [];
     ticks := 0; minted := 0 |}.

Definition no_callBack : CallBack := CbValue VNull.

Definition plain_edit : EditArgs :=
  {| e_transaction := None; e_callBack := no_callBack; e_prefix := None |}.

Definition plain_create : CreateArgs :=
  {| c_docId := None; c_useAutonumber := false; c_transaction := None;
     c_callBack := no_callBack; c_prefix := None |}.

(** A store with the counter of Customers at 8 of at most 9999. *)
Definition counters : gmap (list Z * list Z) (gmap (list Z) JsVal) :=
  {[ (str "Autonumbers", str "Customers") :=
       counter_doc true 8 4 (str "code") ]}.

Definition numbered_create : CreateArgs :=
  {| c_docId := Some (str "c1"); c_useAutonumber := true;
     c_transaction := None; c_callBack := no_callBack; c_prefix := None |}.


(** A customer, and a site that refers to it. *)
Definition customer_c1 : gmap (list Z) JsVal :=
  {[ str "docId" := VStr (str "c1"); str "name" := VStr (str "ACME") ]}.

Definition customers_db : gmap (list Z * list Z) (gmap (list Z) JsVal) :=
  {[ (str "Customers", str "c1") := customer_c1 ]}.

Definition customers_with_site
  : gmap (list Z * list Z) (gmap (list Z) JsVal) :=
  <[ (str "Sites", str "s1") := {[ str "customerId" := VStr (str "c1") ]} ]>
    customers_db.

(** A [delete] whose callback writes the entity's record again. *)
Definition rewriting_edit : EditArgs :=
  {| e_transaction := None;
     e_callBack :=
       CbFunction (fun _ => Ok [WSet (str "Customers", str "c1")
                                  {[ str "docId" := VStr (str "c1") ]}]);
     e_prefix := None |}.

(** A [delete] in the caller's transaction 3. *)
Definition deferred_edit : EditArgs :=
  {| e_transaction := Some 3; e_callBack := CbValue VNull; e_prefix := None |}.

(** The customer c1, and an archive record of that id from an earlier
    life of the id. *)
Definition customers_with_old_archive
  : gmap (list Z * list Z) (gmap (list Z) JsVal) :=
  <[ (str "Customers_archive", str "c1") :=
       {[ str "docId" := VStr (str "c1"); str "name" := VStr (str "Old") ]} ]>
    customers_db.

(** A store with the counter of Customers at 8 of at most 9. *)
Definition small_counters : gmap (list Z * list Z) (gmap (list Z) JsVal) :=
  {[ (str "Autonumbers", str "Customers") :=
       counter_doc true 8 1 (str "code") ]}.

(* ================================================================= *)
(** ** The specification's rules, read literally *)

(** The specification's rule for one constraint, read literally: an
    [orderBy] whose direction is present and is neither "asc" nor "desc",
    and a [limit] whose argument is not a positive integer, each make
    [createQueries] fail with [InvalidArgument]; a tag other than the three
    makes it fail with [InvalidQueryType]. *)
Definition createQueries_rule_as_specified (constraint : list JsVal) : Prop :=
  let type := js_nth constraint 0 in
  let args := tail constraint in
  (is_str type "orderBy" = true ->
   js_nth args 1 <> VUndefined ->
   is_str (js_nth args 1) "asc" = false ->
   is_str (js_nth args 1) "desc" = false ->
   createQueries [constraint] = Err InvalidArgument)
  /\ (is_str type "limit" = true ->
      is_positive_integer (js_nth args 0) = false ->
      createQueries [constraint] = Err InvalidArgument)
  /\ (is_str type "where" = false ->
      is_str type "orderBy" = false ->
      is_str type "limit" = false ->
      createQueries [constraint] = Err InvalidQueryType).

(** The specification's rule for [update] on an instance without [docId],
    read literally: whatever the call's arguments, it fails with
    [PreconditionFailed] and leaves the state, store accesses included, as
    it was. *)
Definition update_rule_as_specified (drv : Driver) (cls : ModelClass)
    (a : EditArgs) (s : State) : Prop :=
  truthy (prop (this s) "docId") = false ->
  ServerAdapter.update drv cls a s = (Err PreconditionFailed, s).

(** The specification's rule for a successful [create] without
    autonumbering, read literally: the id is the caller's or the store's,
    and the two timestamps are equal. *)
Definition create_rule_as_specified (drv : Driver) (cls : ModelClass)
    (a : CreateArgs) (s : State) : Prop :=
  useAutonumber cls && c_useAutonumber a = false ->
  forall docRef s',
    ServerAdapter.create drv cls a s = (Ok docRef, s') ->
    docRef.2 = (if given (c_docId a) then default [] (c_docId a)
                else autoId drv (minted s))
    /\ prop (this s') "docId" = VStr docRef.2
    /\ prop (this s') "createdAt" = prop (this s') "updatedAt".

(** The specification's rule for [delete] in the presence of a dependent
    record, read literally: whatever the call's arguments, it fails with
    [DependencyExists] naming a relation's collection, and no write is
    issued or committed. *)
Definition delete_rule_as_specified (drv : Driver) (cls : ModelClass)
    (a : EditArgs) (s : State) : Prop :=
  forall docId,
    prop (this s) "docId" = VStr docId ->
    (exists item, item ∈ hasMany cls
       /\ has_dependent drv (e_prefix a) (VStr docId) (db s) item) ->
    exists item s',
      item ∈ hasMany cls
      /\ ServerAdapter.delete drv cls a s
         = (Err (DependencyExists (collection item)), s')
      /\ db s' = db s
      /\ writes_of (accesses_since s s') = [].

(** The specification's rule for the round trip of a logical delete, read
    literally: for a class that archives and a stored document, whatever
    the call's arguments, a [delete] that returns never leaves the primary
    and the archive record of the id both present, and a [restore] of the
    id that returns after it leaves the document as it was before the
    [delete] at the primary reference and no archive record. *)
Definition roundtrip_rule_as_specified (drv : Driver) (cls : ModelClass)
    (a : EditArgs) (s : State) : Prop :=
  logicalDelete cls = true ->
  forall docId data s1,
    prop (this s) "docId" = VStr docId ->
    db s !! (getCollectionPath cls (e_prefix a), docId) = Some data ->
    ServerAdapter.delete drv cls a s = (Ok tt, s1) ->
    ~ (is_Some (db s1 !! (getCollectionPath cls (e_prefix a), docId))
       /\ is_Some (db s1 !! (getCollectionPath cls (e_prefix a)
                             ++ str "_archive", docId)))
    /\ forall docRef s2,
         ServerAdapter.restore cls (Some docId) (e_prefix a) s1
         = (Ok docRef, s2) ->
         db s2 !! (getCollectionPath cls (e_prefix a), docId) = Some data
         /\ db s2 !! (getCollectionPath cls (e_prefix a) ++ str "_archive",
                      docId) = None.

(** The specification's rule for serial allocations from [current = c]
    with width [length], read literally: the attempt numbered
    [10^length - c + 1] fails with [Overflow], and [n] allocations before
    it yield the codes c+1, ..., c+n. *)
Definition allocation_rule_as_specified (cls : ModelClass)
    (prefix : option jsstring) (length : Z) (field : jsstring) (c : Z)
    (s : State) (n : nat) : Prop :=
  ((Z.of_nat n < 10 ^ length - c + 1)%Z ->
   fst (attempts cls prefix field n s) = codes_from length c n)
  /\ fst (attempts cls prefix field (Z.to_nat (10 ^ length - c + 1)) s)
     !! Z.to_nat (10 ^ length - c)
     = Some (Err Overflow).

(* ================================================================= *)
(** ** The reading operations *)

(** What [fetch] and [fetchDoc] ask of the entity class: the converter
    applied by [docSnap.data()], and [this.initialize(item)], which loads
    the item into the instance, or resets the instance when the item is
    [null].  Both live outside this repository. *)
Record ModelReader := {
  fromFirestore : gmap (list Z) JsVal -> Result (gmap (list Z) JsVal);
  initialize : gmap (list Z) JsVal -> option (gmap (list Z) JsVal)
               -> gmap (list Z) JsVal
                          (* the instance before, the item or null *)
}.

Section Reads.

Context (rd : ModelReader) (cls : ModelClass).

(** [docSnap.exists ? docSnap.data() : null]. *)
Definition snapshot_data (docSnap : option (gmap (list Z) JsVal))
  : M (option (gmap (list Z) JsVal)) :=
  match docSnap with
  | Some raw => data ← lift (fromFirestore rd raw); mret (Some data)
  | None => mret None
  end.

(** [this.initialize(item)]. *)
Definition run_initialize (item : option (gmap (list Z) JsVal)) : M unit :=
  fun s => (Ok tt, with_this (fun t => initialize rd t item) s).

(** Lines 141-162.  With or without a transaction the read is of the
    committed document. *)
Definition fetch (docId : option jsstring) (transaction : option Txn)
    (prefix : option jsstring) : M bool :=
  if negb (given docId) then throw InvalidArgument
  else
    let collectionPath := getCollectionPath cls prefix in
    let docRef := (collectionPath, default [] docId) in
    docSnap ← doc_get docRef;
    item ← snapshot_data docSnap;
    run_initialize item;;
    mret (match docSnap with Some _ => true | None => false end).

(** Lines 164-183; [None] is [null]. *)
Definition fetchDoc (docId : option jsstring) (transaction : option Txn)
    (prefix : option jsstring) : M (option (gmap (list Z) JsVal)) :=
  if negb (given docId) then throw InvalidArgument
  else
    let collectionPath := getCollectionPath cls prefix in
    let docRef := (collectionPath, default [] docId) in
    docSnap ← doc_get docRef;
    snapshot_data docSnap.

End Reads.

(** An argument that should be an array of constraints. *)
Inductive ArrayArg :=
| AArray (items : list (list JsVal))
| ANotArray (v : JsVal).

(** The driver's query methods that [fetchDocs] calls, [queryRef.where],
    [queryRef.orderBy] and [queryRef.limit]: each answers with the refined
    query or throws (the driver checks its arguments).  They live outside
    this repository and are taken as parameters; so is the type of the
    driver's queries. *)
Record QueryDriver (Query : Type) := {
  q_where : Query -> list JsVal -> Result Query;
  q_orderBy : Query -> JsVal -> JsVal -> Result Query;
  q_limit : Query -> JsVal -> Result Query
}.
Arguments q_where {Query} _ _ _.
Arguments q_orderBy {Query} _ _ _ _.
Arguments q_limit {Query} _ _ _.

Section Queries.

Context {Query : Type} (qd : QueryDriver Query).

(** The body of the [forEach] callback of [fetchDocs], lines 308-322: the
    query is refined by the driver's method for the tag, which may throw,
    or the tag is unknown. *)
Definition fetchDocs_step (queryRef : Query) (constraint : list JsVal)
  : Result Query :=
  let type := js_nth constraint 0 in
  let args := tail constraint in
  if is_str type "where" then q_where qd queryRef args
  else if is_str type "orderBy" then
    q_orderBy qd queryRef (js_nth args 0)
      (js_or (js_nth args 1) (VStr (str "asc")))
  else if is_str type "limit" then q_limit qd queryRef (js_nth args 0)
  else Err InvalidQueryType.

Fixpoint fetchDocs_from (queryRef : Query)
    (constraints : list (list JsVal)) : Result Query :=
  match constraints with
  | [] => Ok queryRef
  | constraint :: rest =>
      match fetchDocs_step queryRef constraint with
      | Ok queryRef' => fetchDocs_from queryRef' rest
      | Err e => Err e
      end
  end.

(** Lines 284-322 of [fetchDocs]: the checks of the two arguments and the
    query built from [[...constraints, ...options]], starting from the
    collection [colRef].  (The read of the query that follows is the
    driver's.) *)
Definition fetchDocs_queryRef (colRef : Query)
    (constraints options : ArrayArg) : Result Query :=
  match constraints with
  | ANotArray _ => Err InvalidArgument
  | AArray constraints =>
      match options with
      | ANotArray _ => Err InvalidArgument
      | AArray options => fetchDocs_from colRef (constraints ++ options)
      end
  end.

(** A predicate of [createQueries] given to the driver: the method of its
    constructor, called with its arguments. *)
Definition apply_predicate (queryRef : Query) (predicate : QueryConstraint)
  : Result Query :=
  match predicate with
  | QWhere args => q_where qd queryRef args
  | QOrderBy field direction => q_orderBy qd queryRef field direction
  | QLimit n => q_limit qd queryRef n
  end.

(** The predicates given to the driver one after the other, up to the
    first it refuses. *)
Fixpoint apply_predicates (queryRef : Query)
    (predicates : list QueryConstraint) : Result Query :=
  match predicates with
  | [] => Ok queryRef
  | predicate :: rest =>
      match apply_predicate queryRef predicate with
      | Ok queryRef' => apply_predicates queryRef' rest
      | Err e => Err e
      end
  end.

End Queries.

(** A driver that records the calls it accepts and, like the store's,
    refuses a limit that is not a positive integer. *)
Definition strict_driver : QueryDriver (list QueryConstraint) :=
  {| q_where := fun q args => Ok (q ++ [QWhere args]);
     q_orderBy := fun q field direction =>
       Ok (q ++ [QOrderBy field direction]);
     q_limit := fun q n =>
       if is_positive_integer n then Ok (q ++ [QLimit n])
       else Err StoreFailure |}.

(** The buffer of a transaction handle. *)
Definition buffer (s : State) (txn : Txn) : list Write :=
  default [] (txns s !! txn).

(** A reader that takes documents as they are stored and loads them as
    the instance, the empty instance standing for the defaults. *)
Definition plain_reader : ModelReader :=
  {| fromFirestore := fun d => Ok d;
     initialize := fun _ item => default ∅ item |}.

(** Customers that are erased on deletion and not numbered. *)
Definition Visitors : ModelClass :=
  {| getCollectionPath := fun _ => str "Visitors";
     useAutonumber := false;
     logicalDelete := false;
     hasMany := [];
     toFirestore := fun t => Ok t;
     beforeCreate := fun t => Ok t;
     beforeUpdate := fun t => Ok t;
     beforeDelete := fun t => Ok t;
     validate := fun _ => Ok tt |}.

(** [a < b] on strings: by code units, a proper prefix being smaller. *)
Fixpoint js_lt (a b : list Z) : bool :=
  match a, b with
  | _, [] => false
  | [], _ :: _ => true
  | x :: a', y :: b' =>
      if (x <? y)%Z then true
      else if (y <? x)%Z then false
      else js_lt a' b'
  end.

(** What a call given the transaction [txn] does to the store between [s]
    and [s']: nothing is committed and no handle is opened; the writes
    issued join the buffer of [txn], in order, and the other buffers stay
    as they are. *)
Definition joins_transaction (txn : Txn) (s s' : State) : Prop :=
  db s' = db s
  /\ next_txn s' = next_txn s
  /\ (ACommit ∉ accesses_since s s')
  /\ buffer s' txn = buffer s txn ++ writes_of (accesses_since s s')
  /\ forall t, t <> txn -> txns s' !! t = txns s !! t.

(** Between [s] and [s'] there is one commit, it is the last access, and
    the documents are those the writes issued give, applied in order. *)
Definition committed (s s' : State) : Prop :=
  (exists before,
     accesses_since s s' = before ++ [ACommit] /\ ACommit ∉ before)
  /\ apply_writes (db s) (writes_of (accesses_since s s')) = Some (db s').

(** Between [s] and [s'] nothing is committed. *)
Definition untouched (s s' : State) : Prop :=
  db s' = db s /\ (ACommit ∉ accesses_since s s').

(** A call that returns has committed; one that throws has not. *)
Definition settled {A} (s : State) (out : Result A * State) : Prop :=
  match out.1 with
  | Ok _ => committed s out.2
  | Err _ => untouched s out.2
  end.

(** The counter of the collection cannot give a number: it is missing, or
    disabled, or enabled, well formed, within the safe integers and
    full. *)
Definition counter_exhausted (cls : ModelClass) (prefix : option jsstring)
    (s : State) : Prop :=
  match db s !! ServerAdapter.counterRef cls prefix with
  | None => True
  | Some data =>
      truthy (prop data "status") = false
      \/ exists current length field,
           counter_view data = Some (current, length, field)
           /\ safe_integer current
           /\ safe_integer (10 ^ length - 1)
           /\ (10 ^ length - 1 < current + 1)%Z
  end.

(** Calls given the transaction handle 7. *)
Definition joined_create : CreateArgs :=
  {| c_docId := Some (str "c1"); c_useAutonumber := true;
     c_transaction := Some 7; c_callBack := no_callBack; c_prefix := None |}.

Definition joined_edit : EditArgs :=
  {| e_transaction := Some 7; e_callBack := no_callBack; e_prefix := None |}.

(** A visitor. *)
Definition visitor_v1 : gmap (list Z) JsVal :=
  {[ str "docId" := VStr (str "v1"); str "name" := VStr (str "Ann") ]}.

(* ================================================================= *)
(** * Theorems *)

Arguments str : simpl never.
Arguments prop : simpl never.

(** Unfolding the monad and its primitives. *)
Ltac run :=
  unfold mbind, M_bind, mret, M_ret, throw, lift, get_this, set_prop;
  cbn beta iota.




(** Case analysis on every test the computation makes. *)
Ltac exec :=
  repeat match goal with
  | |- context [match ?x with _ => _ end] =>
      lazymatch x with
      | context [match _ with _ => _ end] => fail
      | _ => destruct x eqn:?
      end
  end.

Example createQueries_example :
  createQueries
    [ [VStr (str "where"); VStr (str "age"); VStr (str ">="); VInt 18];
      [VStr (str "orderBy"); VStr (str "age"); VStr (str "desc")];
      [VStr (str "limit"); VInt 10] ]
  = Ok [ QWhere [VStr (str "age"); VStr (str ">="); VInt 18];
         QOrderBy (VStr (str "age")) (VStr (str "desc"));
         QLimit (VInt 10) ].
Proof. reflexivity. Qed.

Example tokens_kensaku :
  tokens_of [0x691C; 0x7D22]%Z = [[0x691C]; [0x7D22]; [0x691C; 0x7D22]]%Z.
Proof. reflexivity. Qed.

(* ----------------------------------------------------------------- *)
(** ** createQueries *)

Lemma createQueries_from_app result before rest :
  createQueries_from result (before ++ rest) =
  match createQueries_from result before with
  | Ok result' => createQueries_from result' rest
  | Err e => Err e
  end.
Proof.
  revert result. induction before as [|c before IH]; intros result; simpl.
  - reflexivity.
  - destruct (createQueries_step result c); [apply IH | reflexivity].
Qed.

(** Once the constraints before it have passed, a constraint decides the
    outcome as soon as its own step throws. *)
Lemma createQueries_first_failure before result constraint rest e :
  createQueries before = Ok result ->
  createQueries_step result constraint = Err e ->
  createQueries (before ++ constraint :: rest) = Err e.
Proof.
  unfold createQueries. intros Hb Hs.
  rewrite createQueries_from_app, Hb. simpl. now rewrite Hs.
Qed.

(** C8, counterexample.  The direction [""] is present and is neither
    "asc" nor "desc", yet the constraint is accepted (with the default
    direction); 3/2 is a number greater than zero and not an integer, and
    the limit is accepted. *)
Lemma createQueries_rule_counterexample :
  ~ createQueries_rule_as_specified
      [VStr (str "orderBy"); VStr (str "age"); VStr []]
  /\ ~ createQueries_rule_as_specified
         [VStr (str "limit"); VNum (Finite (3 # 2))].
Proof.
  split; intros (Horder & Hlimit & _).
  - specialize (Horder eq_refl). simpl in Horder.
    discriminate Horder; [discriminate | reflexivity | reflexivity].
  - specialize (Hlimit eq_refl eq_refl). discriminate Hlimit.
Qed.

(** C8, as the code has it.  In a constraint list whose earlier constraints
    pass: an [orderBy] whose direction is truthy and is neither "asc" nor
    "desc" fails with [InvalidArgument], and one whose direction is falsy is
    accepted with direction "asc"; a [limit] whose argument is not a number,
    or is a number at most zero, fails with [InvalidArgument], and any
    number above zero (integer or not) and [NaN] are accepted; a tag other
    than "where", "orderBy" and "limit" fails with [InvalidQueryType]. *)
Theorem createQueries_rejections before result constraint rest :
  createQueries before = Ok result ->
  let type := js_nth constraint 0 in
  let args := tail constraint in
  (is_str type "orderBy" = true ->
   truthy (js_nth args 1) = true ->
   is_str (js_nth args 1) "asc" = false ->
   is_str (js_nth args 1) "desc" = false ->
   createQueries (before ++ constraint :: rest) = Err InvalidArgument)
  /\ (is_str type "orderBy" = true ->
      truthy (js_nth args 1) = false ->
      createQueries (before ++ [constraint]) =
      Ok (result ++ [QOrderBy (js_nth args 0) (VStr (str "asc"))]))
  /\ (is_str type "limit" = true ->
      (is_number (js_nth args 0) = false
       \/ exists n, js_nth args 0 = VNum n /\ num_le0 n = true) ->
      createQueries (before ++ constraint :: rest) = Err InvalidArgument)
  /\ (is_str type "limit" = true ->
      forall n, js_nth args 0 = VNum n -> num_le0 n = false ->
      createQueries (before ++ [constraint]) = Ok (result ++ [QLimit (VNum n)]))
  /\ (is_str type "where" = false ->
      is_str type "orderBy" = false ->
      is_str type "limit" = false ->
      createQueries (before ++ constraint :: rest) = Err InvalidQueryType).
Proof.
  intros Hb type args.
  assert (Hone : forall r, createQueries_step result constraint = Ok r ->
                 createQueries (before ++ [constraint]) = Ok r).
  { intros r Hr. unfold createQueries in *.
    rewrite createQueries_from_app, Hb. simpl. now rewrite Hr. }
  assert (Hw : is_str type "orderBy" = true \/ is_str type "limit" = true ->
               is_str type "where" = false).
  { unfold is_str. destruct type; try (intros [?|?]; discriminate).
    intros [H|H]; apply bool_decide_eq_true in H; subst s;
      apply bool_decide_eq_false; discriminate. }
  assert (Ho : is_str type "limit" = true -> is_str type "orderBy" = false).
  { unfold is_str. destruct type; try discriminate.
    intros H; apply bool_decide_eq_true in H; subst s;
      apply bool_decide_eq_false; discriminate. }
  repeat split.
  - intros Ht Htr Ha Hd.
    apply (createQueries_first_failure _ result); [exact Hb|].
    unfold createQueries_step. fold type args.
    rewrite (Hw (or_introl Ht)), Ht. unfold js_or. rewrite Htr.
    now rewrite Ha, Hd.
  - intros Ht Htr. apply Hone.
    unfold createQueries_step. fold type args.
    rewrite (Hw (or_introl Ht)), Ht. unfold js_or. now rewrite Htr.
  - intros Ht Hbad.
    apply (createQueries_first_failure _ result); [exact Hb|].
    unfold createQueries_step. fold type args.
    rewrite (Hw (or_intror Ht)), (Ho Ht), Ht.
    destruct Hbad as [Hn | (n & Hn & Hle)].
    + now rewrite Hn.
    + rewrite Hn. simpl. now rewrite Hle.
  - intros Ht n Hn Hpos. apply Hone.
    unfold createQueries_step. fold type args.
    rewrite (Hw (or_intror Ht)), (Ho Ht), Ht.
    rewrite Hn. simpl. now rewrite Hpos.
  - intros Hnw Hno Hnl.
    apply (createQueries_first_failure _ result); [exact Hb|].
    unfold createQueries_step. fold type args.
    now rewrite Hnw, Hno, Hnl.
Qed.

Lemma createQueries_rejections_witness :
  let age := [VStr (str "where"); VStr (str "age"); VStr (str ">="); VInt 18] in
  createQueries
    ([age] ++ [VStr (str "orderBy"); VStr (str "age"); VStr (str "up")]
           :: [[VStr (str "limit"); VInt 10]])
  = Err InvalidArgument
  /\ createQueries ([age] ++ [[VStr (str "orderBy"); VStr (str "age")]])
     = Ok ([QWhere (tail age)]
           ++ [QOrderBy (VStr (str "age")) (VStr (str "asc"))])
  /\ createQueries ([age] ++ [VStr (str "limit"); VInt 0] :: [])
     = Err InvalidArgument
  /\ createQueries ([age] ++ [[VStr (str "limit"); VNum (Finite (3 # 2))]])
     = Ok ([QWhere (tail age)] ++ [QLimit (VNum (Finite (3 # 2)))])
  /\ createQueries ([age] ++ [VStr (str "skip"); VInt 1] :: [])
     = Err InvalidQueryType.
Proof.
  intros age.
  split; [|split; [|split; [|split]]].
  - destruct (createQueries_rejections [age] [QWhere (tail age)]
                [VStr (str "orderBy"); VStr (str "age"); VStr (str "up")]
                [[VStr (str "limit"); VInt 10]] eq_refl) as (H & _).
    apply H; reflexivity.
  - destruct (createQueries_rejections [age] [QWhere (tail age)]
                [VStr (str "orderBy"); VStr (str "age")] [] eq_refl)
      as (_ & H & _).
    apply H; reflexivity.
  - destruct (createQueries_rejections [age] [QWhere (tail age)]
                [VStr (str "limit"); VInt 0] [] eq_refl) as (_ & _ & H & _).
    apply H; [reflexivity|]. right. eexists. split; reflexivity.
  - destruct (createQueries_rejections [age] [QWhere (tail age)]
                [VStr (str "limit"); VNum (Finite (3 # 2))] [] eq_refl)
      as (_ & _ & _ & H & _).
    apply H; reflexivity.
  - destruct (createQueries_rejections [age] [QWhere (tail age)]
                [VStr (str "skip"); VInt 1] [] eq_refl) as (_ & _ & _ & _ & H).
    apply H; reflexivity.
Defined.

(* ----------------------------------------------------------------- *)
(** ** createTokenMapQueries *)

Lemma Set_add_spec set x :
  NoDup set ->
  NoDup (Set_add set x) /\ forall y, y ∈ Set_add set x <-> y ∈ set \/ y = x.
Proof.
  intros Hnd. unfold Set_add. destruct (bool_decide (x ∈ set)) eqn:E.
  - apply bool_decide_eq_true in E. split; [exact Hnd|].
    intros y. split; [tauto | intros [?| ->]; assumption].
  - apply bool_decide_eq_false in E. split.
    + apply NoDup_app. split; [exact Hnd|]. split.
      * intros y Hy Hy'. apply list_elem_of_singleton in Hy'. now subst.
      * apply NoDup_singleton.
    + intros y. rewrite elem_of_app, list_elem_of_singleton. tauto.
Qed.

Lemma Set_fold_spec arr set :
  NoDup set ->
  NoDup (fold_left Set_add arr set)
  /\ forall y, y ∈ fold_left Set_add arr set <-> y ∈ set \/ y ∈ arr.
Proof.
  revert set. induction arr as [|x arr IH]; intros set Hnd; simpl.
  - split; [exact Hnd|]. intros y. rewrite elem_of_nil. tauto.
  - destruct (Set_add_spec set x Hnd) as [Hnd' Hin].
    destruct (IH _ Hnd') as [Hnd'' Hin'']. split; [exact Hnd''|].
    intros y. rewrite Hin'', Hin, elem_of_cons. tauto.
Qed.

(** [new Set(arr)] holds the elements of [arr], each once. *)
Lemma Set_from_spec arr :
  NoDup (Set_from arr) /\ forall y, y ∈ Set_from arr <-> y ∈ arr.
Proof.
  destruct (Set_fold_spec arr [] (NoDup_nil_2)) as [Hnd Hin].
  split; [exact Hnd|]. intros y. unfold Set_from. rewrite Hin, elem_of_nil.
  tauto.
Qed.

Lemma strip_keeps s u : u ∈ strip s <-> u ∈ s /\ stripped u = false.
Proof.
  unfold strip. rewrite !list_elem_of_In, filter_In.
  now rewrite negb_true_iff.
Qed.

(** Without high surrogates the iterator yields one element per code
    unit. *)
Lemma length_spread s :
  (forall u, u ∈ s -> is_high_surrogate u = false) ->
  length (spread s) = length s.
Proof.
  induction s as [|u rest IH]; intros Hs; [reflexivity|].
  assert (Hu : is_high_surrogate u = false) by (apply Hs; left).
  assert (Hrest : forall v, v ∈ rest -> is_high_surrogate v = false)
    by (intros v Hv; apply Hs; now right).
  specialize (IH Hrest). simpl. destruct rest as [|v rest'].
  - reflexivity.
  - rewrite Hu. simpl. simpl in IH. now rewrite IH.
Qed.

Lemma length_spread_strip s : length (spread (strip s)) = length (strip s).
Proof.
  apply length_spread. intros u Hu. apply strip_keeps in Hu as [_ Hu].
  unfold stripped in Hu. repeat (apply orb_false_iff in Hu as [Hu _]).
  exact Hu.
Qed.

Lemma slice_0_m1_map_index {A B} (f : nat -> B) (arr : list A) :
  slice_0_m1 (map_index f arr) = List.map f (seq 0 (length arr - 1)).
Proof.
  unfold slice_0_m1, map_index.
  rewrite length_map, length_seq, firstn_map, take_seq.
  f_equal. f_equal. lia.
Qed.

Lemma elem_of_map_seq {B} (f : nat -> B) n y :
  y ∈ List.map f (seq 0 n) <-> exists i, i < n /\ y = f i.
Proof.
  rewrite list_elem_of_In, in_map_iff. split.
  - intros (i & <- & Hi). apply in_seq in Hi. exists i. split; [lia|reflexivity].
  - intros (i & Hi & ->). exists i. split; [reflexivity|]. apply in_seq. lia.
Qed.

(** The index-based substrings of the source are the contiguous substrings
    of one or two characters. *)
Lemma gram_substring target token :
  is_gram target token <->
  (exists i, i < length target /\ token = substring target i (i + 1))
  \/ (exists i, i < length target - 1 /\ token = substring target i (i + 2)).
Proof.
  unfold is_gram, substring. split.
  - intros (Hlen & before & after & ->).
    assert (Hd : drop (length before) (before ++ token ++ after)
                 = token ++ after) by apply drop_app_length.
    destruct Hlen as [Hl | Hl]; [left | right]; exists (length before);
      rewrite Hd; rewrite !length_app; (split; [lia|]);
      replace (length before + _ - length before) with (length token) by lia;
      now rewrite take_app_length.
  - intros [(i & Hi & ->) | (i & Hi & ->)].
    + split.
      * left. rewrite length_take, length_drop. lia.
      * exists (take i target), (drop (i + 1 - i) (drop i target)).
        now rewrite take_drop, take_drop.
    + split.
      * right. rewrite length_take, length_drop. lia.
      * exists (take i target), (drop (i + 2 - i) (drop i target)).
        now rewrite take_drop, take_drop.
Qed.

Lemma tokens_of_strip_spec s :
  NoDup (tokens_of (strip s))
  /\ forall token, token ∈ tokens_of (strip s) <-> is_gram (strip s) token.
Proof.
  unfold tokens_of.
  destruct (Set_from_spec
    (map_index (fun i => substring (strip s) i (i + 1)) (spread (strip s))
     ++ slice_0_m1
          (map_index (fun i => substring (strip s) i (i + 2))
             (spread (strip s))))) as [Hnd Hin].
  split; [exact Hnd|]. intros token.
  rewrite Hin, elem_of_app, slice_0_m1_map_index. unfold map_index.
  rewrite !elem_of_map_seq, length_spread_strip. symmetry.
  apply gram_substring.
Qed.

Lemma tokenMapQuery_inj t1 t2 : tokenMapQuery t1 = tokenMapQuery t2 -> t1 = t2.
Proof.
  unfold tokenMapQuery. intros H. injection H as H. exact H.
Qed.

Lemma stripped_as_specified_spec u : stripped u = stripped_as_specified u.
Proof.
  apply Bool.eq_iff_eq_true.
  unfold stripped, stripped_as_specified, is_high_surrogate, is_low_surrogate,
    is_metacharacter, is_white_space, white_space_units.
  rewrite !orb_true_iff, !andb_true_iff, !bool_decide_eq_true, !elem_of_cons,
    !elem_of_nil, !Z.leb_le, !Z.eqb_eq.
  lia.
Qed.

Lemma strip_as_specified s :
  strip s = List.filter (fun u => negb (stripped_as_specified u)) s.
Proof.
  unfold strip. apply List.filter_ext. intros u.
  now rewrite stripped_as_specified_spec.
Qed.

(** C7.  ["ab"] yields the three predicates [tokenMap.a == true],
    [tokenMap.b == true], [tokenMap.ab == true], in this order and once
    each, and so does "a~ *", an emoji, "[b]" and an ideographic space in
    a row.  Whenever the call returns, its predicates are the predicates
    [tokenMap.<token> == true] of a duplicate-free list of tokens, which
    are exactly the contiguous one- and two-character substrings of the
    input stripped of white space, of ~ * [ ] and of surrogate code
    units; no token holds a surrogate code unit, a metacharacter or white
    space. *)
Theorem createTokenMapQueries_tokens :
  createTokenMapQueries (str "ab") =
    Ok [QWhere [VStr (str "tokenMap.a"); VStr (str "=="); VBool true];
        QWhere [VStr (str "tokenMap.b"); VStr (str "=="); VBool true];
        QWhere [VStr (str "tokenMap.ab"); VStr (str "=="); VBool true]]
  /\ createTokenMapQueries
       ([97; 126; 32; 42; 0xD83D; 0xDE00; 91; 98; 93; 0x3000]%Z) =
    Ok [QWhere [VStr (str "tokenMap.a"); VStr (str "=="); VBool true];
        QWhere [VStr (str "tokenMap.b"); VStr (str "=="); VBool true];
        QWhere [VStr (str "tokenMap.ab"); VStr (str "=="); VBool true]]
  /\ forall constraints queries,
       createTokenMapQueries constraints = Ok queries ->
       exists tokens,
         queries
         = List.map
             (fun token =>
                QWhere [VStr (str "tokenMap." ++ token); VStr (str "==");
                        VBool true])
             tokens
         /\ NoDup tokens /\ NoDup queries
         /\ (forall token,
               token ∈ tokens <->
               is_gram
                 (List.filter (fun u => negb (stripped_as_specified u))
                    constraints)
                 token)
         /\ (forall token u,
               token ∈ tokens -> u ∈ token ->
               u ∈ constraints
               /\ ~ (0xD800 <= u <= 0xDFFF)%Z
               /\ (u ∉ [126; 42; 91; 93]%Z)
               /\ (u ∉ white_space_units)).
Proof.
  split; [reflexivity|]. split; [reflexivity|].
  intros constraints queries. unfold createTokenMapQueries.
  destruct (_ || _); [discriminate|]. intros [= <-].
  destruct (tokens_of_strip_spec constraints) as [Hnd Hin].
  exists (tokens_of (strip constraints)).
  assert (Hunit : forall token u,
            token ∈ tokens_of (strip constraints) -> u ∈ token ->
            u ∈ strip constraints).
  { intros token u Ht Hu. apply Hin in Ht as (_ & before & after & Heq).
    rewrite Heq, !elem_of_app. tauto. }
  split; [reflexivity|]. split; [exact Hnd|]. split; [|split].
  - apply (NoDup_fmap_2_strong tokenMapQuery); [|exact Hnd].
    intros t1 t2 _ _. apply tokenMapQuery_inj.
  - intros token. rewrite <- strip_as_specified. apply Hin.
  - intros token u Ht Hu.
    destruct (proj1 (strip_keeps _ _) (Hunit token u Ht Hu)) as [Hin' Hs].
    split; [exact Hin'|].
    rewrite stripped_as_specified_spec in Hs. unfold stripped_as_specified in Hs.
    apply orb_false_iff in Hs as [Hs Hsur].
    apply orb_false_iff in Hs as [Hws Hmeta].
    apply bool_decide_eq_false in Hws, Hmeta.
    split; [|split; assumption].
    intros [H1 H2]. apply Z.leb_le in H1, H2. rewrite H1, H2 in Hsur.
    discriminate Hsur.
Qed.

(** An emoji (U+1F600 is the pair D83D DE00), a space and a tilde between
    two letters. *)
Lemma createTokenMapQueries_tokens_witness :
  let constraints := [97; 0xD83D; 0xDE00; 32; 126; 98]%Z in
  let queries :=
    [QWhere [VStr (str "tokenMap.a"); VStr (str "=="); VBool true];
     QWhere [VStr (str "tokenMap.b"); VStr (str "=="); VBool true];
     QWhere [VStr (str "tokenMap.ab"); VStr (str "=="); VBool true]] in
  exists tokens,
    queries
    = List.map
        (fun token =>
           QWhere [VStr (str "tokenMap." ++ token); VStr (str "==");
                   VBool true])
        tokens
    /\ NoDup tokens /\ NoDup queries
    /\ (forall token,
          token ∈ tokens <->
          is_gram
            (List.filter (fun u => negb (stripped_as_specified u)) constraints)
            token)
    /\ (forall token u,
          token ∈ tokens -> u ∈ token ->
          u ∈ constraints
          /\ ~ (0xD800 <= u <= 0xDFFF)%Z
          /\ (u ∉ [126; 42; 91; 93]%Z)
          /\ (u ∉ white_space_units)).
Proof.
  intros constraints queries.
  destruct createTokenMapQueries_tokens as (_ & _ & Hall).
  apply (Hall constraints queries). reflexivity.
Defined.

(** C10.  An input that is not empty after trimming and all of whose code
    units are stripped makes the call return the empty list. *)
Theorem createTokenMapQueries_all_stripped constraints :
  trim constraints <> [] ->
  (forall u, u ∈ constraints -> stripped u = true) ->
  createTokenMapQueries constraints = Ok [].
Proof.
  intros Htrim Hall. unfold createTokenMapQueries.
  assert (Hne : constraints <> []).
  { intros ->. now apply Htrim. }
  destruct constraints as [|u rest]; [congruence|].
  destruct (trim (u :: rest)) as [|v t] eqn:Et; [congruence|].
  simpl length. simpl orb. cbv iota.
  assert (Hs : strip (u :: rest) = []).
  { unfold strip. generalize (u :: rest) Hall. clear.
    induction l as [|w l IH]; intros Hall; [reflexivity|]. simpl.
    rewrite (Hall w) by left. simpl. apply IH. intros x Hx. apply Hall.
    now right. }
  now rewrite Hs.
Qed.

(** A string of one emoji, and a string of metacharacters. *)
Lemma createTokenMapQueries_all_stripped_witness :
  createTokenMapQueries [0xD83D; 0xDE00]%Z = Ok []
  /\ createTokenMapQueries (str "~*[]") = Ok [].
Proof.
  split; apply createTokenMapQueries_all_stripped;
    try (vm_compute; discriminate);
    intros u Hu; repeat (apply elem_of_cons in Hu as [-> | Hu]; [reflexivity|]);
    now apply elem_of_nil in Hu.
Defined.

(* ----------------------------------------------------------------- *)
(** ** update *)

(** C6, counterexample.  On an instance without [docId], [update] called
    with a [callBack] that is the number 42 fails with [InvalidArgument]:
    the check of [callBack] (lines 356-358) comes first. *)
Lemma update_rule_counterexample :
  ~ update_rule_as_specified demo_driver Customers
      {| e_transaction := None; e_callBack := CbValue (VInt 42);
         e_prefix := None |}
      (initial ∅ ∅).
Proof.
  intros H. specialize (H eq_refl). discriminate H.
Qed.

(** C6, as the code has it.  On an instance whose [docId] is not set,
    [update] fails with [PreconditionFailed] when its [callBack] is null or
    a function, and with [InvalidArgument] when it is anything else; either
    way the state is untouched: no store read or write, no open
    transaction, no hook run. *)
Theorem update_without_docId drv cls a s :
  truthy (prop (this s) "docId") = false ->
  (callBack_rejected (e_callBack a) = false ->
   ServerAdapter.update drv cls a s = (Err PreconditionFailed, s))
  /\ (callBack_rejected (e_callBack a) = true ->
      ServerAdapter.update drv cls a s = (Err InvalidArgument, s)).
Proof.
  intros Hid. unfold ServerAdapter.update. split; intros Hcb; rewrite Hcb.
  - run. now rewrite Hid.
  - reflexivity.
Qed.

Lemma update_without_docId_witness :
  ServerAdapter.update demo_driver Customers plain_edit
    (initial {[ str "name" := VStr (str "ACME") ]} ∅)
  = (Err PreconditionFailed, initial {[ str "name" := VStr (str "ACME") ]} ∅).
Proof.
  refine (proj1 (update_without_docId demo_driver Customers plain_edit
                   (initial {[ str "name" := VStr (str "ACME") ]} ∅) _) _);
    vm_compute; reflexivity.
Defined.

(* ----------------------------------------------------------------- *)
(** ** Transactions and callbacks *)

Lemma writes_of_app l1 l2 : writes_of (l1 ++ l2) = writes_of l1 ++ writes_of l2.
Proof.
  induction l1 as [|x l1 IH]; [reflexivity|]. destruct x; simpl; now rewrite IH.
Qed.

Lemma writes_of_AWrite ws : writes_of (List.map AWrite ws) = ws.
Proof. induction ws as [|w ws IH]; simpl; [reflexivity | now rewrite IH]. Qed.

Lemma accesses_since_app s s' new :
  trace s' = trace s ++ new -> accesses_since s s' = new.
Proof. unfold accesses_since. intros ->. apply drop_app_length. Qed.

Lemma callBack_writes_fold txn ws s :
  let s' := foldl (fun s w => snd (txn_write txn w s)) s ws in
  this s' = this s /\ db s' = db s /\ ticks s' = ticks s
  /\ minted s' = minted s /\ next_txn s' = next_txn s
  /\ trace s' = trace s ++ List.map AWrite ws
  /\ default [] (txns s' !! txn) = default [] (txns s !! txn) ++ ws
  /\ forall t, t <> txn -> txns s' !! t = txns s !! t.
Proof.
  revert s. induction ws as [|w ws IH]; intros s; cbn.
  - rewrite !app_nil_r. repeat split; reflexivity.
  - destruct (IH (snd (txn_write txn w s)))
      as (H1 & H2 & H3 & H4 & H5 & H6 & H7 & H8).
    cbn in *. rewrite H1, H2, H3, H4, H5, H6, H7.
    repeat split; try reflexivity.
    + now rewrite <- app_assoc.
    + rewrite lookup_insert_eq. cbn. now rewrite <- app_assoc.
    + intros t Ht. rewrite H8 by exact Ht. now rewrite lookup_insert_ne.
Qed.

(** A callback touches the transaction's buffer and nothing else; when it
    throws it has issued nothing. *)
Lemma run_callBack_spec callBack txn s r s' :
  run_callBack callBack txn s = (r, s') ->
  this s' = this s /\ db s' = db s /\ ticks s' = ticks s
  /\ minted s' = minted s /\ next_txn s' = next_txn s
  /\ trace s' = trace s ++ List.map AWrite (callBack_writes callBack (db s))
  /\ default [] (txns s' !! txn)
     = default [] (txns s !! txn) ++ callBack_writes callBack (db s)
  /\ (forall t, t <> txn -> txns s' !! t = txns s !! t)
  /\ (r = Ok tt \/ exists e, r = Err e /\ s' = s).
Proof.
  unfold run_callBack, callBack_writes. destruct callBack as [f | v].
  - destruct (f (db s)) as [ws | e] eqn:Hf; intros [= <- <-].
    + destruct (callBack_writes_fold txn ws s)
        as (H1 & H2 & H3 & H4 & H5 & H6 & H7 & H8).
      repeat split; try assumption. now left.
    + cbn. rewrite !app_nil_r. repeat split; try reflexivity.
      right. now exists e.
  - intros [= <- <-]. cbn. rewrite !app_nil_r.
    repeat split; try reflexivity. now left.
Qed.

Ltac callback_facts :=
  match goal with
  | H : run_callBack _ _ _ = _ |- _ =>
      apply run_callBack_spec in H
        as (? & ? & ? & ? & ? & ? & ? & ? & ?)
  end.


(* ----------------------------------------------------------------- *)
(** ** create *)

Lemma str_neq a b : bool_decide (str a = str b) = false -> str a <> str b.
Proof. apply bool_decide_eq_false. Qed.

Lemma prop_stamp_docId docId c u t :
  prop (stamp docId c u t) "docId" = VStr docId.
Proof.
  unfold prop, stamp.
  rewrite !lookup_insert_ne by (apply str_neq; reflexivity).
  now rewrite lookup_insert_eq.
Qed.

Lemma prop_stamp_createdAt docId c u t :
  prop (stamp docId c u t) "createdAt" = c.
Proof.
  unfold prop, stamp.
  rewrite !lookup_insert_ne by (apply str_neq; reflexivity).
  now rewrite lookup_insert_eq.
Qed.

Lemma prop_stamp_updatedAt docId c u t :
  prop (stamp docId c u t) "updatedAt" = u.
Proof.
  unfold prop, stamp.
  rewrite !lookup_insert_ne by (apply str_neq; reflexivity).
  now rewrite lookup_insert_eq.
Qed.

Lemma prop_stamp_uid docId c u t :
  prop (stamp docId c u t) "uid" = VStr (str "cloud functions").
Proof. unfold prop, stamp. now rewrite lookup_insert_eq. Qed.

(** What a run of [create] without autonumbering that returns has done to
    the instance. *)
Lemma create_plain_returns drv cls a s docRef s' :
  useAutonumber cls && c_useAutonumber a = false ->
  ServerAdapter.create drv cls a s = (Ok docRef, s') ->
  exists t1,
    beforeCreate cls (this s) = Ok t1
    /\ docRef = (getCollectionPath cls (c_prefix a),
                 if given (c_docId a) then default [] (c_docId a)
                 else autoId drv (minted s))
    /\ this s' = stamp docRef.2 (VDate (clock drv (ticks s)))
                   (VDate (clock drv (S (ticks s)))) t1.
Proof.
  intros Hn.
  unfold ServerAdapter.create, ServerAdapter.create_performTransaction,
    runTransaction.
  rewrite Hn.
  unfold ServerAdapter.txn_set_this, new_Date, doc_auto, run_hook,
    ServerAdapter.run_validate, txn_write.
  run. cbn. exec; try discriminate.
  all: intros [= <- <-]; eexists; split; [reflexivity|]; split; [reflexivity|].
  all: match goal with
       | H : run_callBack _ _ _ = _ |- _ =>
           apply run_callBack_spec in H as (Hthis & _)
       end.
  all: cbn; rewrite Hthis; reflexivity.
Qed.

(** C5, counterexample.  With a clock that advances by a millisecond per
    reading, the two [new Date()] of lines 120 and 121 differ. *)
Lemma create_rule_counterexample :
  ~ create_rule_as_specified demo_driver Customers plain_create (initial ∅ ∅).
Proof.
  intros H.
  assert (Hrun :
    ServerAdapter.create demo_driver Customers plain_create (initial ∅ ∅)
    = (Ok (str "Customers", str "id0"),
       snd (ServerAdapter.create demo_driver Customers plain_create
              (initial ∅ ∅))))
    by (vm_compute; reflexivity).
  destruct (H eq_refl _ _ Hrun) as (_ & _ & Heq).
  vm_compute in Heq. discriminate Heq.
Qed.

(** C5, as the code has it.  After a successful [create] without
    autonumbering, the reference's id is the caller's [docId] when one was
    given and the store-generated id otherwise, the instance's [docId] is
    that id, and [createdAt] and [updatedAt] hold two successive readings of
    the clock, [createdAt] the earlier; they are equal exactly when the
    clock gave the same reading twice. *)
Theorem create_plain_stamps drv cls a s docRef s' :
  useAutonumber cls && c_useAutonumber a = false ->
  ServerAdapter.create drv cls a s = (Ok docRef, s') ->
  docRef.2 = (if given (c_docId a) then default [] (c_docId a)
              else autoId drv (minted s))
  /\ prop (this s') "docId" = VStr docRef.2
  /\ prop (this s') "createdAt" = VDate (clock drv (ticks s))
  /\ prop (this s') "updatedAt" = VDate (clock drv (S (ticks s)))
  /\ (prop (this s') "createdAt" = prop (this s') "updatedAt"
      <-> clock drv (ticks s) = clock drv (S (ticks s))).
Proof.
  intros Hn Hc.
  destruct (create_plain_returns _ _ _ _ _ _ Hn Hc) as (t1 & _ & Href & Hthis).
  rewrite Hthis, prop_stamp_docId, prop_stamp_createdAt, prop_stamp_updatedAt.
  repeat split; try reflexivity.
  - now rewrite Href.
  - now intros [= ->].
  - now intros ->.
Qed.

Lemma create_plain_stamps_witness :
  let r := ServerAdapter.create frozen_driver Customers
             {| c_docId := Some (str "c1"); c_useAutonumber := false;
                c_transaction := None; c_callBack := no_callBack;
                c_prefix := None |}
             (initial ∅ ∅) in
  prop (this (snd r)) "docId" = VStr (str "c1")
  /\ prop (this (snd r)) "createdAt" = prop (this (snd r)) "updatedAt".
Proof.
  intros r.
  destruct (create_plain_stamps frozen_driver Customers
              {| c_docId := Some (str "c1"); c_useAutonumber := false;
                 c_transaction := None; c_callBack := no_callBack;
                 c_prefix := None |}
              (initial ∅ ∅) (str "Customers", str "c1") (snd r))
    as (_ & Hid & _ & _ & Heq).
  - reflexivity.
  - vm_compute. reflexivity.
  - split; [exact Hid | apply Heq; reflexivity].
Defined.



Example create_numbered_writes :
  writes_of (trace (snd (ServerAdapter.create demo_driver Customers
                           numbered_create (initial ∅ counters))))
  = [ WSet (str "Customers", str "c1")
        (stamp (str "c1") (VDate 1700000000000) (VDate 1700000000001)
           {[ str "code" := VStr (str "0009") ]});
      WUpdate (str "Autonumbers", str "Customers")
        {[ str "current" := VInt 9 ]} ].
Proof. vm_compute. reflexivity. Qed.



(* ----------------------------------------------------------------- *)
(** ** hasChild and delete *)

Lemma forallb_false {A} (f : A -> bool) l :
  forallb f l = false <-> exists x, x ∈ l /\ f x = false.
Proof.
  induction l as [|x l IH]; simpl.
  - split; [discriminate | intros (x & Hx & _); now apply elem_of_nil in Hx].
  - rewrite andb_false_iff, IH. split.
    + intros [Hx | (y & Hy & Hf)].
      * exists x. split; [left | exact Hx].
      * exists y. split; [now right | exact Hf].
    + intros (y & Hy & Hf). apply elem_of_cons in Hy as [-> | Hy].
      * now left.
      * right. now exists y.
Qed.

Lemma query_empty_spec drv scope field op operand s :
  exists empty,
    query_empty drv scope field op operand s
    = (Ok empty, log (AQuery scope field op operand) s)
    /\ (empty = false <->
        exists ref doc, db s !! ref = Some doc
          /\ query_matches drv scope field op operand ref doc = true).
Proof.
  unfold query_empty. eexists. split; [reflexivity|].
  rewrite forallb_false. split.
  - intros ([ref doc] & Hin & Hm). apply elem_of_map_to_list in Hin.
    exists ref, doc. split; [exact Hin|]. now apply negb_false_iff in Hm.
  - intros (ref & doc & Hin & Hm). exists (ref, doc). split.
    + now apply elem_of_map_to_list.
    + now apply negb_false_iff.
Qed.

Section Loop.
Context (drv : Driver).

Lemma hasChild_loop_spec prefix docId items s r s' :
  ServerAdapter.hasChild_loop drv prefix docId items s = (r, s') ->
  this s' = this s /\ db s' = db s /\ txns s' = txns s
  /\ next_txn s' = next_txn s /\ ticks s' = ticks s /\ minted s' = minted s
  /\ (exists queries, trace s' = trace s ++ queries /\ writes_of queries = [])
  /\ exists found, r = Ok found /\
     match found with
     | Some item =>
         exists before after,
           items = before ++ item :: after
           /\ (forall i, i ∈ before ->
                 ~ has_dependent drv prefix docId (db s) i)
           /\ has_dependent drv prefix docId (db s) item
     | None =>
         forall i, i ∈ items -> ~ has_dependent drv prefix docId (db s) i
     end.
Proof.
  revert s. induction items as [|item rest IH]; intros s; simpl.
  - intros [= <- <-]. repeat split; try reflexivity.
    + exists []. now rewrite app_nil_r.
    + exists None. split; [reflexivity|]. intros i Hi.
      now apply elem_of_nil in Hi.
  - run.
    destruct (query_empty_spec drv (ServerAdapter.relation_scope prefix item)
                (field item) (condition item) docId s)
      as (empty & -> & Hempty).
    destruct empty; cbn.
    + intros Hrest. apply IH in Hrest
        as (H1 & H2 & H3 & H4 & H5 & H6 & (qs & Hq & Hw) & found & -> & Hfound).
      cbn in *. repeat split; try assumption.
      * exists (AQuery (ServerAdapter.relation_scope prefix item)
                  (field item) (condition item) docId :: qs).
        split; [rewrite Hq; now rewrite <- app_assoc | exact Hw].
      * exists found. split; [reflexivity|].
        assert (Hno : ~ has_dependent drv prefix docId (db s) item).
        { intros Hd. apply Hempty in Hd. discriminate Hd. }
        destruct found as [it|].
        -- destruct Hfound as (before & after & -> & Hb & Hit).
           exists (item :: before), after. split; [reflexivity|].
           split; [|exact Hit]. intros i Hi.
           apply elem_of_cons in Hi as [-> | Hi]; [exact Hno | now apply Hb].
        -- intros i Hi.
           apply elem_of_cons in Hi as [-> | Hi]; [exact Hno | now apply Hfound].
    + intros [= <- <-]. cbn. repeat split; try reflexivity.
      * eexists. split; [reflexivity | reflexivity].
      * exists (Some item). split; [reflexivity|].
        exists [], rest. split; [reflexivity|]. split.
        -- intros i Hi. now apply elem_of_nil in Hi.
        -- now apply Hempty.
Qed.
End Loop.

(** C2, counterexample.  The customer c1 has a site that refers to it, and
    [delete] is called with a [callBack] that is the number 42: the call
    fails with [InvalidArgument], raised by the check of lines 452-454
    before the dependent records are looked at. *)
Lemma delete_rule_counterexample :
  ~ delete_rule_as_specified demo_driver Customers
      {| e_transaction := None; e_callBack := CbValue (VInt 42);
         e_prefix := None |}
      (initial customer_c1 customers_with_site).
Proof.
  intros H. destruct (H (str "c1")) as (item & s' & _ & Hrun & _).
  - reflexivity.
  - eexists. split; [left|]. exists (str "Sites", str "s1"). eexists.
    split; vm_compute; reflexivity.
  - discriminate Hrun.
Qed.

(** C2, as the code has it.  When [callBack] is null or a function, the
    instance has a [docId], the [beforeDelete] hook returns and leaves a
    non-empty string as [docId], and some relation of [hasMany] has a
    dependent record of that id, then [delete] fails with
    [DependencyExists] naming the collection of the first such relation in
    [hasMany]; no write is issued, the committed documents and the buffer
    of a caller's transaction are as before. *)
Theorem delete_blocked_by_dependent drv cls a s t1 docId :
  callBack_rejected (e_callBack a) = false ->
  truthy (prop (this s) "docId") = true ->
  beforeDelete cls (this s) = Ok t1 ->
  prop t1 "docId" = VStr docId ->
  docId <> [] ->
  (exists item, item ∈ hasMany cls
     /\ has_dependent drv (e_prefix a) (VStr docId) (db s) item) ->
  exists item before after s',
    hasMany cls = before ++ item :: after
    /\ (forall i, i ∈ before ->
          ~ has_dependent drv (e_prefix a) (VStr docId) (db s) i)
    /\ has_dependent drv (e_prefix a) (VStr docId) (db s) item
    /\ ServerAdapter.delete drv cls a s
       = (Err (DependencyExists (collection item)), s')
    /\ db s' = db s
    /\ writes_of (accesses_since s s') = []
    /\ (forall txn, e_transaction a = Some txn -> txns s' = txns s).
Proof.
  intros Hcb Hset Hhook Hid Hne (dep & Hdep & Hhas).
  destruct (ServerAdapter.delete drv cls a s) as [r s'] eqn:Hrun.
  revert Hrun.
  unfold ServerAdapter.delete. rewrite Hcb. run. rewrite Hset. cbn.
  unfold run_hook. rewrite Hhook. cbn. unfold doc. rewrite Hid.
  destruct docId as [|u docId]; [congruence|]. cbn.
  unfold ServerAdapter.delete_performTransaction, ServerAdapter.hasChild,
    runTransaction.
  run. cbn.
  destruct (e_transaction a) as [txn|]; cbn; rewrite !Hid; cbn.
  - destruct (ServerAdapter.hasChild_loop drv (e_prefix a) (VStr (u :: docId))
                (hasMany cls) (with_this (fun _ => t1) s))
      as [r0 s0] eqn:Hloop.
    apply hasChild_loop_spec in Hloop
      as (H1 & H2 & H3 & H4 & H5 & H6 & (qs & Hq & Hw) & found & -> & Hfound).
    cbn in *. destruct found as [item|].
    + destruct Hfound as (before & after & Hsplit & Hfirst & Hitem).
      cbn. intros [= <- <-].
      exists item, before, after, s0.
      repeat split; try assumption; try reflexivity; try (intros; assumption).
      unfold accesses_since. rewrite Hq, drop_app_length. exact Hw.
    + exfalso. exact (Hfound dep Hdep Hhas).
  - destruct (ServerAdapter.hasChild_loop drv (e_prefix a) (VStr (u :: docId))
                (hasMany cls) _)
      as [r0 s0] eqn:Hloop.
    apply hasChild_loop_spec in Hloop
      as (H1 & H2 & H3 & H4 & H5 & H6 & (qs & Hq & Hw) & found & -> & Hfound).
    cbn in *. destruct found as [item|].
    + destruct Hfound as (before & after & Hsplit & Hfirst & Hitem).
      cbn. intros [= <- <-].
      exists item, before, after. eexists.
      repeat split; try eassumption; try reflexivity; try discriminate.
      unfold accesses_since. cbn. rewrite Hq, drop_app_length. exact Hw.
    + exfalso. exact (Hfound dep Hdep Hhas).
Qed.


Lemma delete_blocked_by_dependent_witness :
  exists item before after s',
    hasMany Customers = before ++ item :: after
    /\ (forall i, i ∈ before ->
          ~ has_dependent demo_driver None (VStr (str "c1"))
              customers_with_site i)
    /\ has_dependent demo_driver None (VStr (str "c1")) customers_with_site
         item
    /\ ServerAdapter.delete demo_driver Customers plain_edit
         (initial customer_c1 customers_with_site)
       = (Err (DependencyExists (collection item)), s')
    /\ db s' = customers_with_site
    /\ writes_of (accesses_since (initial customer_c1 customers_with_site) s')
       = []
    /\ (forall txn, e_transaction plain_edit = Some txn -> txns s' = ∅).
Proof.
  apply (delete_blocked_by_dependent demo_driver Customers plain_edit
           (initial customer_c1 customers_with_site) customer_c1 (str "c1")).
  - reflexivity.
  - vm_compute. reflexivity.
  - reflexivity.
  - vm_compute. reflexivity.
  - vm_compute. discriminate.
  - eexists. split; [left|]. exists (str "Sites", str "s1"). eexists.
    split; vm_compute; reflexivity.
Defined.

(* ----------------------------------------------------------------- *)
(** ** delete and restore *)

Lemma apply_writes_app db ws1 ws2 :
  apply_writes db (ws1 ++ ws2) =
  match apply_writes db ws1 with
  | Some db' => apply_writes db' ws2
  | None => None
  end.
Proof.
  revert db. induction ws1 as [|w ws1 IH]; intros db; simpl; [reflexivity|].
  destruct (apply_write db w); [apply IH | reflexivity].
Qed.

(** Writes on other documents leave a document as it is. *)
Lemma apply_writes_other db ws db' ref :
  apply_writes db ws = Some db' ->
  (forall w, w ∈ ws -> write_ref w <> ref) ->
  db' !! ref = db !! ref.
Proof.
  revert db. induction ws as [|w ws IH]; intros db; simpl.
  - now intros [= <-] _.
  - destruct (apply_write db w) as [db1|] eqn:Hw; [|discriminate].
    intros Hrest Hother. rewrite (IH _ Hrest).
    + assert (Hne : write_ref w <> ref) by (apply Hother; left).
      destruct w as [r d | r f | r]; simpl in *.
      * injection Hw as <-. now rewrite lookup_insert_ne.
      * destruct (db !! r); [|discriminate]. injection Hw as <-.
        now rewrite lookup_insert_ne.
      * injection Hw as <-. now rewrite lookup_delete_ne.
    + intros w' Hw'. apply Hother. now right.
Qed.

Lemma archive_path_neq (path : list Z) : path ++ str "_archive" <> path.
Proof.
  intros H. apply (f_equal length) in H. rewrite length_app in H.
  vm_compute (length (str "_archive")) in H. lia.
Qed.

(** C3, counterexample.  A [delete] whose callback sets the entity's
    record again returns and leaves both the primary and the archive
    record of c1.  And a [delete] in the caller's transaction returns
    with nothing committed: with an archive record of c1 left from
    earlier, the [restore] that follows returns and puts the old record,
    not the document as it was before the [delete], at the primary
    reference. *)
Lemma roundtrip_rule_counterexample :
  (let s1 := snd (ServerAdapter.delete demo_driver Customers rewriting_edit
                    (initial customer_c1 customers_db)) in
   fst (ServerAdapter.delete demo_driver Customers rewriting_edit
          (initial customer_c1 customers_db)) = Ok tt
   /\ db s1 !! (str "Customers", str "c1")
      = Some {[ str "docId" := VStr (str "c1") ]}
   /\ db s1 !! (str "Customers_archive", str "c1") = Some customer_c1
   /\ ~ roundtrip_rule_as_specified demo_driver Customers rewriting_edit
          (initial customer_c1 customers_db))
  /\ (let s1 := snd (ServerAdapter.delete demo_driver Customers deferred_edit
                       (initial customer_c1 customers_with_old_archive)) in
      let s2 := snd (ServerAdapter.restore Customers (Some (str "c1")) None
                       s1) in
      fst (ServerAdapter.delete demo_driver Customers deferred_edit
             (initial customer_c1 customers_with_old_archive)) = Ok tt
      /\ fst (ServerAdapter.restore Customers (Some (str "c1")) None s1)
         = Ok (str "Customers", str "c1")
      /\ db s2 !! (str "Customers", str "c1")
         = Some {[ str "docId" := VStr (str "c1");
                   str "name" := VStr (str "Old") ]}
      /\ ~ roundtrip_rule_as_specified demo_driver Customers deferred_edit
             (initial customer_c1 customers_with_old_archive)).
Proof.
  split.
  - intros s1. split; [vm_compute; reflexivity|].
    split; [vm_compute; reflexivity|]. split; [vm_compute; reflexivity|].
    intros H.
    destruct (H eq_refl (str "c1") customer_c1 s1) as [Hnot _].
    + vm_compute. reflexivity.
    + vm_compute. reflexivity.
    + vm_compute. reflexivity.
    + apply Hnot. split; vm_compute; eexists; reflexivity.
  - intros s1 s2. split; [vm_compute; reflexivity|].
    split; [vm_compute; reflexivity|]. split; [vm_compute; reflexivity|].
    intros H.
    destruct (H eq_refl (str "c1") customer_c1 s1) as [_ Hback].
    + vm_compute. reflexivity.
    + vm_compute. reflexivity.
    + vm_compute. reflexivity.
    + destruct (Hback (str "Customers", str "c1") s2) as [Hdata _].
      * vm_compute. reflexivity.
      * vm_compute in Hdata. discriminate Hdata.
Qed.

(** C3, as the code has it.  For a class with [logicalDelete], a [delete] in a transaction of
    its own that returns, on an instance whose [docId] names a stored
    document, leaves no primary record and leaves the document, field for
    field, as the archive record; the [restore] of that id then returns the
    primary reference, puts the same document back at it and leaves no
    archive record.  The callback, if any, is one that writes neither
    record. *)
Theorem delete_restore_roundtrip drv cls a s t1 docId data s1 :
  logicalDelete cls = true ->
  e_transaction a = None ->
  beforeDelete cls (this s) = Ok t1 ->
  prop t1 "docId" = VStr docId ->
  callBack_spares (e_callBack a)
    [(getCollectionPath cls (e_prefix a), docId);
     (getCollectionPath cls (e_prefix a) ++ str "_archive", docId)] ->
  db s !! (getCollectionPath cls (e_prefix a), docId) = Some data ->
  ServerAdapter.delete drv cls a s = (Ok tt, s1) ->
  (db s1 !! (getCollectionPath cls (e_prefix a), docId) = None
   /\ db s1 !! (getCollectionPath cls (e_prefix a) ++ str "_archive", docId)
      = Some data)
  /\ exists s2,
       ServerAdapter.restore cls (Some docId) (e_prefix a) s1
       = (Ok (getCollectionPath cls (e_prefix a), docId), s2)
       /\ db s2 !! (getCollectionPath cls (e_prefix a), docId) = Some data
       /\ db s2 !! (getCollectionPath cls (e_prefix a) ++ str "_archive", docId)
          = None.
Proof.
  intros Hlog Htxn Hhook Hid Hspare Hdata.
  unfold ServerAdapter.delete. 
  destruct (callBack_rejected (e_callBack a)); [discriminate|].
  run. destruct (negb (truthy (prop (this s) "docId"))); [discriminate|].
  cbn. unfold run_hook. rewrite Hhook. cbn. unfold doc. rewrite Hid, Htxn.
  destruct docId as [|u docId]; [discriminate|]. cbn.
  unfold ServerAdapter.delete_performTransaction, ServerAdapter.hasChild,
    runTransaction.
  run. cbn. rewrite !Hid. cbn. rewrite Hlog.
  destruct (ServerAdapter.hasChild_loop _ _ _ _ _) as [r0 s0] eqn:Hloop.
  apply hasChild_loop_spec in Hloop
      as (H1 & H2 & H3 & H4 & H5 & H6 & (qs & Hq & Hw) & found & -> & Hfound).
  cbn in *. destruct found as [item|]; [discriminate|]. cbn.
  unfold doc_get. rewrite H2, Hdata. cbn. rewrite H1, Hid. cbn.
  unfold txn_write. cbn.
  destruct (run_callBack _ _ _) as [r sc] eqn:Hcall.
  apply run_callBack_spec in Hcall
    as (_ & Hdb & _ & _ & _ & _ & Hbuf & _ & Hres).
  cbn in Hdb, Hbuf. rewrite !lookup_insert_eq in Hbuf. cbn in Hbuf.
  rewrite H3, lookup_insert_eq in Hbuf. cbn in Hbuf.
  destruct r as [[]|e]; [|discriminate].
  rewrite Hbuf, Hdb, H2. cbn.
  destruct (apply_writes _ _) as [db1|] eqn:Hws; [|discriminate].
  intros [= <-]. cbn.
  assert (Hne : (getCollectionPath cls (e_prefix a) ++ str "_archive",
                 u :: docId)
                <> (getCollectionPath cls (e_prefix a), u :: docId)).
  { intros [= Hp]. now apply archive_path_neq in Hp. }
  assert (Hprimary :
    db1 !! (getCollectionPath cls (e_prefix a), u :: docId) = None).
  { rewrite (apply_writes_other _ _ _ _ Hws).
    - apply lookup_delete_eq.
    - intros w Hin Heq. apply (Hspare _ _ Hin). rewrite Heq. left. }
  assert (Harchive :
    db1 !! (getCollectionPath cls (e_prefix a) ++ str "_archive", u :: docId)
    = Some data).
  { rewrite (apply_writes_other _ _ _ _ Hws).
    - rewrite lookup_delete_ne by (intros H; now apply Hne).
      apply lookup_insert_eq.
    - intros w Hin Heq. apply (Hspare _ _ Hin). rewrite Heq. right. left. }
  split; [split; assumption|].
  rewrite Harchive. eexists. split; [reflexivity|]. cbn. split.
  - apply lookup_insert_eq.
  - rewrite lookup_insert_ne by (intros H; now apply Hne).
    apply lookup_delete_eq.
Qed.

Lemma delete_restore_roundtrip_witness :
  let s1 := snd (ServerAdapter.delete demo_driver Customers plain_edit
                   (initial customer_c1 customers_db)) in
  (db s1 !! (str "Customers", str "c1") = None
   /\ db s1 !! (str "Customers_archive", str "c1") = Some customer_c1)
  /\ exists s2,
       ServerAdapter.restore Customers (Some (str "c1")) None s1
       = (Ok (str "Customers", str "c1"), s2)
       /\ db s2 !! (str "Customers", str "c1") = Some customer_c1
       /\ db s2 !! (str "Customers_archive", str "c1") = None.
Proof.
  intros s1.
  apply (delete_restore_roundtrip demo_driver Customers plain_edit
           (initial customer_c1 customers_db) customer_c1 (str "c1")
           customer_c1 s1).
  - reflexivity.
  - reflexivity.
  - reflexivity.
  - vm_compute. reflexivity.
  - intros d w Hw. now apply elem_of_nil in Hw.
  - vm_compute. reflexivity.
  - vm_compute. reflexivity.
Defined.

(* ----------------------------------------------------------------- *)
(** ** Autonumber codes *)

Local Open Scope Z_scope.

Lemma decimal_value_from s acc :
  fold_left (fun acc d => 10 * acc + (d - 48)) s acc
  = acc * 10 ^ Z.of_nat (length s) + decimal_value s.
Proof.
  unfold decimal_value. revert acc.
  induction s as [|d s IH]; intros acc.
  - simpl. lia.
  - cbn [fold_left length]. rewrite IH, (IH (10 * 0 + (d - 48))).
    rewrite Nat2Z.inj_succ, Z.pow_succ_r by lia. ring.
Qed.

Lemma decimal_value_cons d s :
  decimal_value (d :: s) = (d - 48) * 10 ^ Z.of_nat (length s) + decimal_value s.
Proof.
  unfold decimal_value at 1. cbn [fold_left]. rewrite decimal_value_from. ring.
Qed.

Lemma digits_value fuel : forall n acc,
  0 <= n < 2 ^ Z.of_nat fuel ->
  decimal_value (digits fuel n acc)
  = n * 10 ^ Z.of_nat (length acc) + decimal_value acc.
Proof.
  induction fuel as [|fuel IH]; intros n acc Hn.
  - simpl in Hn. assert (n = 0) by lia. subst. simpl. lia.
  - cbn [digits]. 
    assert (Hdm : n = 10 * (n / 10) + n mod 10) by (apply Z.div_mod; lia).
    destruct (n / 10 =? 0) eqn:Hq.
    + apply Z.eqb_eq in Hq. rewrite decimal_value_cons. 
      replace (48 + n mod 10 - 48) with n by lia. reflexivity.
    + apply Z.eqb_neq in Hq. rewrite IH.
      * rewrite decimal_value_cons. cbn [length].
        rewrite Nat2Z.inj_succ, Z.pow_succ_r by lia.
        replace (48 + n mod 10 - 48) with (n mod 10) by lia.
        rewrite Hdm at 3. ring.
      * rewrite Nat2Z.inj_succ, Z.pow_succ_r in Hn by lia.
        assert (0 <= n mod 10 < 10) by (apply Z.mod_pos_bound; lia).
        split; [apply Z.div_pos; lia|]. 
        apply Z.div_lt_upper_bound; lia.
Qed.

Lemma digits_are_digits fuel : forall n acc,
  0 <= n -> Forall (fun u => is_digit u = true) acc ->
  Forall (fun u => is_digit u = true) (digits fuel n acc).
Proof.
  induction fuel as [|fuel IH]; intros n acc Hn Hacc; [exact Hacc|].
  cbn [digits].
  assert (0 <= n mod 10 < 10) by (apply Z.mod_pos_bound; lia).
  assert (Hd : Forall (fun u => is_digit u = true) ((48 + n mod 10) :: acc)).
  { constructor; [|exact Hacc]. unfold is_digit.
    apply andb_true_iff. split; apply Z.leb_le; lia. }
  destruct (n / 10 =? 0); [exact Hd|]. apply IH; [|exact Hd].
  apply Z.div_pos; lia.
Qed.

Lemma digits_length fuel : forall n acc (L : nat),
  0 <= n < 10 ^ Z.of_nat L -> (1 <= L)%nat ->
  (length (digits fuel n acc) <= L + length acc)%nat.
Proof.
  induction fuel as [|fuel IH]; intros n acc L Hn HL; [simpl; lia|].
  cbn [digits]. destruct (n / 10 =? 0) eqn:Hq.
  - simpl. lia.
  - apply Z.eqb_neq in Hq.
    assert (10 <= n).
    { destruct (Z_lt_ge_dec n 10) as [Hlt|]; [|lia].
      exfalso. apply Hq. apply Z.div_small. lia. }
    destruct L as [|[|L]]; [lia | simpl in Hn; lia |].
    specialize (IH (n / 10) ((48 + n mod 10) :: acc) (S L)).
    cbn [length] in IH.
    assert (Hq' : 0 <= n / 10 < 10 ^ Z.of_nat (S L)).
    { split; [apply Z.div_pos; lia|].
      apply Z.div_lt_upper_bound; [lia|].
      rewrite (Nat2Z.inj_succ (S L)), Z.pow_succ_r in Hn by lia. lia. }
    specialize (IH Hq' ltac:(lia)). lia.
Qed.

Lemma String_of_integer_nonneg n :
  0 <= n ->
  String_of_integer n = digits (S (Z.to_nat (Z.log2 n))) n []
  /\ 0 <= n < 2 ^ Z.of_nat (S (Z.to_nat (Z.log2 n))).
Proof.
  intros Hn. unfold String_of_integer.
  replace (n <? 0) with false by (symmetry; apply Z.ltb_ge; lia).
  split; [reflexivity|]. split; [lia|].
  rewrite Nat2Z.inj_succ, Z2Nat.id by apply Z.log2_nonneg.
  destruct (Z.eq_dec n 0) as [->|]; [reflexivity|].
  apply Z.log2_spec. lia.
Qed.

Lemma decimal_value_zeros k s :
  decimal_value (replicate k 48 ++ s) = decimal_value s.
Proof.
  induction k as [|k IH]; [reflexivity|].
  cbn [replicate app]. unfold decimal_value in *. cbn [fold_left]. exact IH.
Qed.

(** A code is [length] digits that denote the number. *)
Lemma code_of_spec L n :
  1 <= n <= 10 ^ L - 1 ->
  length (code_of L n) = Z.to_nat L
  /\ Forall (fun u => is_digit u = true) (code_of L n)
  /\ decimal_value (code_of L n) = n.
Proof.
  intros Hn. unfold code_of, padStart0.
  destruct (String_of_integer_nonneg n) as [-> Hfuel]; [lia|].
  assert (HL : 1 <= L).
  { destruct (Z_lt_ge_dec L 1) as [Hlt|]; [|lia]. exfalso.
    destruct (Z.eq_dec L 0) as [->|]; [simpl in Hn; lia|].
    rewrite Z.pow_neg_r in Hn by lia. lia. }
  assert (Hlen : (length (digits (S (Z.to_nat (Z.log2 n))) n []) <= Z.to_nat L)%nat).
  { pose proof (digits_length (S (Z.to_nat (Z.log2 n))) n [] (Z.to_nat L)) as H.
    simpl length in H. rewrite Nat.add_0_r in H. apply H; [|lia].
    rewrite Z2Nat.id by lia. lia. }
  repeat split.
  - rewrite length_app, length_replicate. lia.
  - apply Forall_app. split.
    + apply Forall_replicate. reflexivity.
    + apply digits_are_digits; [lia | constructor].
  - rewrite decimal_value_zeros, digits_value by exact Hfuel.
    unfold decimal_value. simpl. lia.
Qed.

Close Scope Z_scope.

Lemma as_integer_VInt z : as_integer (VInt z) = Some z.
Proof.
  unfold as_integer, VInt, inject_Z. cbn [Qnum Qden].
  now rewrite Z.mod_1_r, Z.div_1_r.
Qed.

Lemma prop_update_current (data : gmap (list Z) JsVal) n :
  prop ({[str "current" := VInt n]} ∪ data) "current" = VInt n.
Proof.
  unfold prop. rewrite lookup_union_l' ; rewrite lookup_singleton_eq; [reflexivity|eauto].
Qed.

Lemma prop_update_other (data : gmap (list Z) JsVal) n name :
  bool_decide (str "current" = str name) = false ->
  prop ({[str "current" := VInt n]} ∪ data) name = prop data name.
Proof.
  intros Hne. apply bool_decide_eq_false in Hne. unfold prop.
  rewrite lookup_union_r; [reflexivity|]. now apply lookup_singleton_ne.
Qed.

Lemma counter_view_inv data c L f :
  counter_view data = Some (c, L, f) ->
  as_integer (prop data "current") = Some c
  /\ as_integer (prop data "length") = Some L
  /\ as_string (prop data "field") = Some f.
Proof.
  unfold counter_view.
  destruct (as_integer (prop data "current")); [|discriminate].
  destruct (as_integer (prop data "length")); [|discriminate].
  destruct (as_string (prop data "field")); [|discriminate].
  cbn. now intros [= -> -> ->].
Qed.

(** The counter after its [current] has been updated. *)
Lemma counter_view_update data c L f n :
  counter_view data = Some (c, L, f) ->
  counter_view ({[str "current" := VInt n]} ∪ data) = Some (n, L, f)
  /\ prop ({[str "current" := VInt n]} ∪ data) "status" = prop data "status".
Proof.
  intros Hv. apply counter_view_inv in Hv as (_ & HL & Hf).
  unfold counter_view.
  rewrite prop_update_current, as_integer_VInt,
    !prop_update_other, HL, Hf by reflexivity.
  split; reflexivity.
Qed.

Section Allocation.
Context (cls : ModelClass) (prefix : option (list Z)).

Lemma allocation_step s data c L f :
  db s !! ServerAdapter.counterRef cls prefix = Some data ->
  truthy (prop data "status") = true ->
  counter_view data = Some (c, L, f) ->
  exists s',
    (if (c + 1 >? 10 ^ L - 1)%Z
     then allocation cls prefix s = (Err Overflow, s') /\ db s' = db s
     else allocation cls prefix s = (Ok tt, s')
          /\ this s' !! f = Some (VStr (code_of L (c + 1)))
          /\ db s' = <[ServerAdapter.counterRef cls prefix :=
                        {[str "current" := VInt (c + 1)]} ∪ data]> (db s)).
Proof.
  intros Hdoc Hst Hview.
  unfold allocation, runTransaction, ServerAdapter.setAutonumber, doc_get,
    txn_write.
  run. cbn. rewrite Hdoc, Hst. cbn. rewrite Hview.
  destruct (c + 1 >? 10 ^ L - 1)%Z; cbn.
  - eexists. split; reflexivity.
  - rewrite !lookup_insert_eq. cbn. rewrite Hdoc. cbn.
    eexists. split; [reflexivity|]. cbn. split; [|reflexivity].
    apply lookup_insert_eq.
Qed.
End Allocation.


(* ----------------------------------------------------------------- *)
(** ** Serial allocations *)

Section Attempts.
Context (cls : ModelClass) (prefix : option (list Z)) (L : Z) (f : list Z).

Lemma codes_from_S c N :
  codes_from L c (S N)
  = Ok (VStr (code_of L (c + 1))) :: codes_from L (c + 1) N.
Proof.
  unfold codes_from. cbn [seq List.map]. f_equal.
  rewrite <- seq_shift, List.map_map. apply List.map_ext. intros i.
  do 3 f_equal. lia.
Qed.

Lemma attempts_succeed N : forall s c,
  counter_at cls prefix L f s c ->
  (c + Z.of_nat N <= 10 ^ L - 1)%Z ->
  exists s',
    attempts cls prefix f N s = (codes_from L c N, s')
    /\ counter_at cls prefix L f s' (c + Z.of_nat N).
Proof.
  induction N as [|N IH]; intros s c Hc Hle.
  - exists s. split; [reflexivity|]. now rewrite Z.add_0_r.
  - destruct Hc as (data & Hdoc & Hst & Hview).
    destruct (allocation_step cls prefix s data c L f Hdoc Hst Hview)
      as (s1 & Hstep).
    replace (c + 1 >? 10 ^ L - 1)%Z with false in Hstep
      by (symmetry; rewrite Z.gtb_ltb; apply Z.ltb_ge; lia).
    destruct Hstep as (Hrun & Hcode & Hdb).
    destruct (counter_view_update data c L f (c + 1) Hview) as [Hview' Hst'].
    destruct (IH s1 (c + 1)%Z) as (s' & Hrest & Hc').
    + eexists. rewrite Hdb, lookup_insert_eq. split; [reflexivity|].
      split; [now rewrite Hst' | exact Hview'].
    + lia.
    + exists s'. rewrite codes_from_S. cbn [attempts].
      rewrite Hrun, Hrest, Hcode. split; [reflexivity|].
      now replace (c + Z.of_nat (S N))%Z with (c + 1 + Z.of_nat N)%Z by lia.
Qed.

Lemma attempts_overflow M : forall s c,
  counter_at cls prefix L f s c ->
  (10 ^ L - 1 < c + 1)%Z ->
  exists s',
    attempts cls prefix f M s = (replicate M (Err Overflow), s')
    /\ counter_at cls prefix L f s' c.
Proof.
  induction M as [|M IH]; intros s c Hc Hgt.
  - exists s. split; [reflexivity | exact Hc].
  - destruct Hc as (data & Hdoc & Hst & Hview).
    destruct (allocation_step cls prefix s data c L f Hdoc Hst Hview)
      as (s1 & Hstep).
    replace (c + 1 >? 10 ^ L - 1)%Z with true in Hstep
      by (symmetry; rewrite Z.gtb_ltb; apply Z.ltb_lt; lia).
    destruct Hstep as (Hrun & Hdb).
    destruct (IH s1 c) as (s' & Hrest & Hc').
    + exists data. now rewrite Hdb.
    + exact Hgt.
    + exists s'. cbn [attempts]. rewrite Hrun, Hrest. split; [reflexivity|].
      exact Hc'.
Qed.

Lemma attempts_app N M s :
  attempts cls prefix f (N + M) s
  = let (o1, s1) := attempts cls prefix f N s in
    let (o2, s2) := attempts cls prefix f M s1 in
    (o1 ++ o2, s2).
Proof.
  revert s. induction N as [|N IH]; intros s.
  - cbn. now destruct (attempts cls prefix f M s).
  - cbn [Nat.add attempts]. destruct (allocation cls prefix s) as [r s1].
    rewrite IH. destruct (attempts cls prefix f N s1) as [o1 s2].
    now destruct (attempts cls prefix f M s2).
Qed.

(** C1, as the code has it.  From an enabled counter at [c >= 0] of width
    [L], [c] and [10^L - 1] being safe integers, under serial execution:
    any [N] allocations with [c + N <= 10^L - 1] succeed with the codes
    c+1, ..., c+N and leave the counter at [c + N], a safe integer (each
    adds exactly one); each code is [L] decimal digits that denote its
    number.  After the [10^L - 1 - c] allocations that the counter
    allows, every further attempt fails with [Overflow]: the first to
    fail is the attempt numbered [10^L - c]. *)
Theorem autonumber_allocations s c :
  counter_at cls prefix L f s c ->
  (0 <= c)%Z ->
  safe_integer c ->
  safe_integer (10 ^ L - 1) ->
  (forall N : nat,
     (c + Z.of_nat N <= 10 ^ L - 1)%Z ->
     exists s',
       attempts cls prefix f N s = (codes_from L c N, s')
       /\ counter_at cls prefix L f s' (c + Z.of_nat N)
       /\ safe_integer (c + Z.of_nat N)
       /\ forall i : nat,
            1 <= i <= N ->
            length (code_of L (c + Z.of_nat i)) = Z.to_nat L
            /\ Forall (fun u => is_digit u = true)
                 (code_of L (c + Z.of_nat i))
            /\ decimal_value (code_of L (c + Z.of_nat i))
               = (c + Z.of_nat i)%Z)
  /\ (forall M : nat,
        fst (attempts cls prefix f (Z.to_nat (10 ^ L - 1 - c) + M) s)
        = codes_from L c (Z.to_nat (10 ^ L - 1 - c))
          ++ replicate M (Err Overflow)).
Proof.
  intros Hc H0 Hsafe HL. split.
  - intros N HN. destruct (attempts_succeed N s c Hc HN) as (s' & Hrun & Hc').
    exists s'. split; [exact Hrun|]. split; [exact Hc'|].
    split; [unfold safe_integer in *; lia|].
    intros i Hi. apply code_of_spec. lia.
  - intros M. remember (10 ^ L - 1)%Z as maxValue eqn:Hmax.
    destruct (Z_le_gt_dec c maxValue) as [Hle | Hgt].
    + rewrite attempts_app.
      destruct (attempts_succeed (Z.to_nat (maxValue - c)) s c Hc)
        as (s1 & -> & Hc1); [lia|].
      destruct (attempts_overflow M s1 _ Hc1) as (s2 & -> & _); [lia|].
      reflexivity.
    + replace (Z.to_nat (maxValue - c)) with 0 by lia. cbn [Nat.add].
      destruct (attempts_overflow M s c Hc) as (s2 & -> & _); [lia|].
      reflexivity.
Qed.
End Attempts.

(** C1, counterexample.  From [current = 8] with [length = 1], two
    allocations come before the attempt numbered 10 - 8 + 1 = 3 and should
    yield the codes 9 and 10; the second one already fails with [Overflow],
    as 9 is the last number of one digit.  (The third attempt fails too.) *)
Lemma allocation_rule_counterexample :
  fst (attempts Customers None (str "code") 3 (initial ∅ small_counters))
  = [Ok (VStr (str "9")); Err Overflow; Err Overflow]
  /\ ~ allocation_rule_as_specified Customers None 1 (str "code") 8
         (initial ∅ small_counters) 2.
Proof.
  split; [vm_compute; reflexivity|].
  intros [H _]. specialize (H ltac:(vm_compute; reflexivity)).
  vm_compute in H. discriminate H.
Qed.

Lemma autonumber_allocations_witness :
  (exists s',
     attempts Customers None (str "code") 3 (initial ∅ counters)
     = (codes_from 4 8 3, s')
     /\ counter_at Customers None 4 (str "code") s' (8 + Z.of_nat 3))
  /\ fst (attempts Customers None (str "code")
            (Z.to_nat (10 ^ 1 - 1 - 8) + 2) (initial ∅ small_counters))
     = codes_from 1 8 (Z.to_nat (10 ^ 1 - 1 - 8))
       ++ replicate 2 (Err Overflow).
Proof.
  split.
  - destruct (autonumber_allocations Customers None 4 (str "code")
                (initial ∅ counters) 8) as [Hcodes _].
    + exists (counter_doc true 8 4 (str "code")).
      repeat split; vm_compute; reflexivity.
    + lia.
    + unfold safe_integer. lia.
    + unfold safe_integer. lia.
    + destruct (Hcodes 3) as (s' & Hrun & Hc & _);
        [vm_compute; discriminate|].
      exists s'. split; assumption.
  - apply (autonumber_allocations Customers None 1 (str "code")
             (initial ∅ small_counters) 8).
    + exists (counter_doc true 8 1 (str "code")).
      repeat split; vm_compute; reflexivity.
    + lia.
    + unfold safe_integer. lia.
    + unfold safe_integer. lia.
Defined.

(* ================================================================= *)
(** * Further properties of the code *)

(* ----------------------------------------------------------------- *)
(** ** The two query builders *)

Lemma createQueries_step_acc result constraint :
  createQueries_step result constraint =
  match createQueries_step [] constraint with
  | Ok q => Ok (result ++ q)
  | Err e => Err e
  end.
Proof.
  unfold createQueries_step.
  repeat match goal with
         | |- context [if ?b then _ else _] => destruct b
         end; reflexivity.
Qed.

Lemma createQueries_from_acc constraints : forall result,
  createQueries_from result constraints =
  match createQueries constraints with
  | Ok qs => Ok (result ++ qs)
  | Err e => Err e
  end.
Proof.
  unfold createQueries.
  induction constraints as [|c rest IH]; intros result; simpl.
  - now rewrite app_nil_r.
  - rewrite (createQueries_step_acc result c).
    destruct (createQueries_step [] c) as [q|e]; [|reflexivity].
    rewrite (IH (result ++ q)), (IH q).
    destruct (createQueries_from [] rest); [|reflexivity].
    now rewrite app_assoc.
Qed.

Lemma createQueries_step_length constraint q :
  createQueries_step [] constraint = Ok q -> length q = 1.
Proof.
  unfold createQueries_step.
  repeat match goal with
         | |- context [if ?b then _ else _] => destruct b
         end; intros [= <-]; reflexivity.
Qed.

(** X1.  [createQueries] translates constraint by constraint: the result
    for a concatenation is the concatenation of the results, the first
    failure in order being the failure of the whole; and a list that is
    accepted gives one predicate per constraint. *)
Theorem createQueries_compose first second :
  createQueries (first ++ second) =
    match createQueries first with
    | Ok qs1 =>
        match createQueries second with
        | Ok qs2 => Ok (qs1 ++ qs2)
        | Err e => Err e
        end
    | Err e => Err e
    end
  /\ forall queries,
       createQueries first = Ok queries -> length queries = length first.
Proof.
  split.
  - unfold createQueries at 1. rewrite createQueries_from_app.
    fold (createQueries first). destruct (createQueries first); [|reflexivity].
    apply createQueries_from_acc.
  - induction first as [|c rest IH]; intros queries.
    + now intros [= <-].
    + unfold createQueries. simpl.
      destruct (createQueries_step [] c) as [q|e] eqn:Hq; [|discriminate].
      rewrite createQueries_from_acc.
      destruct (createQueries rest) as [qs|e] eqn:Hr; [|discriminate].
      intros [= <-]. rewrite length_app, (createQueries_step_length _ _ Hq).
      simpl. f_equal. now apply IH.
Qed.

Lemma createQueries_compose_witness :
  let first :=
    [[VStr (str "where"); VStr (str "age"); VStr (str ">="); VInt 18]] in
  let second := [[VStr (str "limit"); VInt 10]] in
  createQueries (first ++ second)
  = Ok [QWhere [VStr (str "age"); VStr (str ">="); VInt 18];
        QLimit (VInt 10)]
  /\ length [QWhere [VStr (str "age"); VStr (str ">="); VInt 18]]
     = length first.
Proof.
  intros first second.
  destruct (createQueries_compose first second) as [Hcat Hlen]. split.
  - rewrite Hcat. reflexivity.
  - apply Hlen. reflexivity.
Defined.

Lemma fetchDocs_step_applies {Query} (qd : QueryDriver Query) queryRef
    constraint predicates :
  createQueries_step [] constraint = Ok predicates ->
  exists predicate,
    predicates = [predicate]
    /\ fetchDocs_step qd queryRef constraint
       = apply_predicate qd queryRef predicate.
Proof.
  unfold createQueries_step, fetchDocs_step.
  destruct (is_str (js_nth constraint 0) "where").
  { intros [= <-]. eexists. split; reflexivity. }
  destruct (is_str (js_nth constraint 0) "orderBy").
  { destruct (negb _); [discriminate|]. intros [= <-].
    eexists. split; reflexivity. }
  destruct (is_str (js_nth constraint 0) "limit"); [|discriminate].
  destruct (_ || _); [discriminate|]. intros [= <-].
  eexists. split; reflexivity.
Qed.

Lemma fetchDocs_from_applies {Query} (qd : QueryDriver Query) constraints :
  forall queryRef predicates,
    createQueries constraints = Ok predicates ->
    fetchDocs_from qd queryRef constraints
    = apply_predicates qd queryRef predicates.
Proof.
  induction constraints as [|c rest IH]; intros queryRef predicates.
  - intros [= <-]. reflexivity.
  - unfold createQueries. simpl.
    destruct (createQueries_step [] c) as [q|e] eqn:Hq; [|discriminate].
    rewrite createQueries_from_acc.
    destruct (createQueries rest) as [qs|e] eqn:Hr; [|discriminate].
    intros [= <-].
    destruct (fetchDocs_step_applies qd queryRef c q Hq) as (p & -> & ->).
    simpl. destruct (apply_predicate qd queryRef p); [|reflexivity].
    now apply IH.
Qed.

(** X2.  Whatever [createQueries] accepts, [fetchDocs] gives to the
    driver: for the two lists joined, the query of [fetchDocs] is the
    collection refined by the driver's method for each predicate that
    [createQueries] returns, with that predicate's arguments (the default
    direction "asc" included), in the same order, and it fails where the
    driver first refuses one. *)
Theorem fetchDocs_builds_createQueries_predicates {Query}
    (qd : QueryDriver Query) colRef constraints options predicates :
  createQueries (constraints ++ options) = Ok predicates ->
  fetchDocs_queryRef qd colRef (AArray constraints) (AArray options)
  = apply_predicates qd colRef predicates.
Proof. apply fetchDocs_from_applies. Qed.

(** The limit 3/2 passes [createQueries] and is refused by the driver. *)
Lemma fetchDocs_builds_createQueries_predicates_witness :
  fetchDocs_queryRef strict_driver []
    (AArray [[VStr (str "where"); VStr (str "age"); VStr (str ">="); VInt 18];
             [VStr (str "orderBy"); VStr (str "age")]])
    (AArray [[VStr (str "limit"); VNum (Finite (3 # 2))]])
  = apply_predicates strict_driver []
      [QWhere [VStr (str "age"); VStr (str ">="); VInt 18];
       QOrderBy (VStr (str "age")) (VStr (str "asc"));
       QLimit (VNum (Finite (3 # 2)))].
Proof.
  apply fetchDocs_builds_createQueries_predicates. reflexivity.
Defined.

(* ----------------------------------------------------------------- *)
(** ** The tokenizer's rejections and the number of its queries *)

Lemma trimStart_nil s :
  trimStart s = [] <-> forall u, u ∈ s -> is_white_space u = true.
Proof.
  induction s as [|u s IH]; simpl.
  - split; [intros _ u Hu; now apply elem_of_nil in Hu | reflexivity].
  - destruct (is_white_space u) eqn:Hu.
    + rewrite IH. split.
      * intros H v Hv. apply elem_of_cons in Hv as [-> | Hv]; [exact Hu | now apply H].
      * intros H v Hv. apply H. now right.
    + split; [discriminate|]. intros H. rewrite (H u) in Hu by left. discriminate.
Qed.

Lemma trimStart_keeps s u :
  u ∈ s -> is_white_space u = false -> u ∈ trimStart s.
Proof.
  induction s as [|v s IH]; simpl; [trivial|].
  intros Hu Hws. destruct (is_white_space v) eqn:Hv; [|exact Hu].
  apply elem_of_cons in Hu as [-> | Hu]; [congruence | now apply IH].
Qed.

Lemma trim_nil s :
  trim s = [] <-> forall u, u ∈ s -> is_white_space u = true.
Proof.
  unfold trim. split.
  - intros H u Hu. destruct (is_white_space u) eqn:Hws; [reflexivity|].
    exfalso.
    assert (H1 : u ∈ rev (trimStart s)).
    { apply list_elem_of_In, in_rev. rewrite rev_involutive.
      now apply list_elem_of_In, trimStart_keeps. }
    assert (H2 : u ∈ rev (trimStart (rev (trimStart s)))).
    { apply list_elem_of_In, in_rev. rewrite rev_involutive.
      now apply list_elem_of_In, trimStart_keeps. }
    rewrite H in H2. now apply elem_of_nil in H2.
  - intros H. apply trimStart_nil in H. rewrite H. reflexivity.
Qed.

(** X4.  [createTokenMapQueries] rejects exactly the strings that consist
    of white space only, the empty string among them, and it fails in no
    other way. *)
Theorem createTokenMapQueries_blank constraints :
  ((forall u, u ∈ constraints -> is_white_space u = true) <->
   createTokenMapQueries constraints = Err InvalidArgument)
  /\ forall e, createTokenMapQueries constraints = Err e -> e = InvalidArgument.
Proof.
  unfold createTokenMapQueries.
  destruct (Nat.eqb (length constraints) 0
            || Nat.eqb (length (trim constraints)) 0) eqn:Hb.
  - split; [|now intros e [= <-]]. split; [reflexivity|]. intros _.
    apply orb_true_iff in Hb as [Hb | Hb]; apply Nat.eqb_eq in Hb.
    + destruct constraints; [|discriminate]. intros u Hu.
      now apply elem_of_nil in Hu.
    + apply trim_nil. now destruct (trim constraints).
  - split; [|discriminate]. split; [|discriminate]. intros H. exfalso.
    apply trim_nil in H. rewrite H in Hb. cbn in Hb.
    now rewrite orb_true_r in Hb.
Qed.

Lemma createTokenMapQueries_blank_witness :
  createTokenMapQueries [32; 12288]%Z = Err InvalidArgument.
Proof.
  destruct (createTokenMapQueries_blank [32; 12288]%Z) as [[Hblank _] _].
  apply Hblank. intros u Hu.
  repeat (apply elem_of_cons in Hu as [-> | Hu]; [reflexivity|]).
  now apply elem_of_nil in Hu.
Defined.




(* ----------------------------------------------------------------- *)
(** ** The codes of the allocator *)

Lemma decimal_value_bound s :
  Forall (fun u => is_digit u = true) s ->
  (0 <= decimal_value s < 10 ^ Z.of_nat (length s))%Z.
Proof.
  induction 1 as [|d s Hd Hs IH].
  - unfold decimal_value. simpl. lia.
  - rewrite decimal_value_cons. cbn [length].
    rewrite Nat2Z.inj_succ, Z.pow_succ_r by lia.
    unfold is_digit in Hd. apply andb_true_iff in Hd as [H1 H2].
    apply Z.leb_le in H1, H2. nia.
Qed.

(** On digit strings of one length, the order of strings is the order of
    the numbers. *)
Lemma js_lt_decimal a : forall b,
  length a = length b ->
  Forall (fun u => is_digit u = true) a ->
  Forall (fun u => is_digit u = true) b ->
  (decimal_value a < decimal_value b)%Z ->
  js_lt a b = true.
Proof.
  induction a as [|x a IH]; intros [|y b] Hlen Ha Hb Hlt;
    try discriminate Hlen.
  - unfold decimal_value in Hlt. simpl in Hlt. lia.
  - inversion Ha as [|? ? Hx Ha']; inversion Hb as [|? ? Hy Hb']; subst.
    injection Hlen as Hlen. rewrite !decimal_value_cons in Hlt.
    pose proof (decimal_value_bound a Ha') as Bda.
    pose proof (decimal_value_bound b Hb') as Bdb.
    rewrite Hlen in *. simpl.
    destruct (x <? y)%Z eqn:Hxy; [reflexivity|].
    apply Z.ltb_ge in Hxy.
    destruct (y <? x)%Z eqn:Hyx.
    + apply Z.ltb_lt in Hyx. exfalso.
      assert (0 < 10 ^ Z.of_nat (length b))%Z by (apply Z.pow_pos_nonneg; lia).
      nia.
    + apply Z.ltb_ge in Hyx. assert (x = y) by lia. subst.
      apply IH; try assumption; lia.
Qed.

Lemma js_lt_asym a : forall b, js_lt a b = true -> js_lt b a = false.
Proof.
  induction a as [|x a IH]; intros [|y b]; simpl; try reflexivity;
    try discriminate.
  destruct (x <? y)%Z eqn:Hxy.
  - intros _. apply Z.ltb_lt in Hxy.
    replace (y <? x)%Z with false by (symmetry; apply Z.ltb_ge; lia).
    reflexivity.
  - destruct (y <? x)%Z; [discriminate|]. apply IH.
Qed.

(** X6.  Within the capacity of a counter of width [L], [10^L - 1] being
    a safe integer, different numbers are safe integers with different
    codes, and the codes sort, as strings, in the order of the numbers. *)
Theorem codes_are_unique_and_ordered L n m :
  safe_integer (10 ^ L - 1) ->
  (1 <= n)%Z -> (n < m)%Z -> (m <= 10 ^ L - 1)%Z ->
  safe_integer n /\ safe_integer m
  /\ code_of L n <> code_of L m
  /\ js_lt (code_of L n) (code_of L m) = true
  /\ js_lt (code_of L m) (code_of L n) = false.
Proof.
  intros Hsafe H1 Hnm Hm.
  destruct (code_of_spec L n) as (Hln & Hdn & Hvn); [lia|].
  destruct (code_of_spec L m) as (Hlm & Hdm & Hvm); [lia|].
  assert (Hlt : js_lt (code_of L n) (code_of L m) = true).
  { apply js_lt_decimal; try assumption; [congruence | lia]. }
  unfold safe_integer in *.
  split; [lia|]. split; [lia|]. split; [|split; [exact Hlt|]].
  - intros Heq. rewrite Heq in Hvn. lia.
  - apply js_lt_asym. exact Hlt.
Qed.

Lemma codes_are_unique_and_ordered_witness :
  safe_integer 9 /\ safe_integer 10
  /\ code_of 4 9 <> code_of 4 10
  /\ js_lt (code_of 4 9) (code_of 4 10) = true
  /\ js_lt (code_of 4 10) (code_of 4 9) = false.
Proof.
  apply (codes_are_unique_and_ordered 4 9 10); unfold safe_integer; lia.
Defined.

(* ----------------------------------------------------------------- *)
(** ** setAutonumber *)



(** X8.  The outcome of [setAutonumber] is decided by the counter document
    alone: it fails with [NotFound] exactly when there is none, with
    [Disabled] exactly when there is one whose [status] is falsy, and for
    an enabled counter whose [current] and [10 ^ length - 1] are safe
    integers it fails with [Overflow] exactly when [current + 1] exceeds
    [10 ^ length - 1] and returns otherwise. *)
Theorem setAutonumber_outcome cls txn prefix s :
  let docRef := ServerAdapter.counterRef cls prefix in
  let r := fst (ServerAdapter.setAutonumber cls (Some txn) prefix s) in
  (db s !! docRef = None <-> r = Err NotFound)
  /\ ((exists data, db s !! docRef = Some data
         /\ truthy (prop data "status") = false) <-> r = Err Disabled)
  /\ forall data current length field,
       db s !! docRef = Some data ->
       truthy (prop data "status") = true ->
       counter_view data = Some (current, length, field) ->
       safe_integer current ->
       safe_integer (10 ^ length - 1) ->
       ((10 ^ length - 1 < current + 1)%Z <-> r = Err Overflow)
       /\ ((current + 1 <= 10 ^ length - 1)%Z <-> exists k, r = Ok k).
Proof.
  intros docRef r. subst docRef r.
  unfold ServerAdapter.setAutonumber, doc_get. run. cbn.
  destruct (db s !! ServerAdapter.counterRef cls prefix) as [data|] eqn:Hdoc;
    cbn.
  2:{ split; [split; reflexivity|]. split.
      - split; [intros (d & Hd & _); discriminate Hd | discriminate].
      - intros d current length field Hd. discriminate Hd. }
  destruct (truthy (prop data "status")) eqn:Hst; cbn.
  2:{ split; [split; discriminate|]. split.
      - split; [reflexivity|]. intros _. now exists data.
      - intros d current length field [= <-] Hst'. congruence. }
  split; [|split].
  - destruct (counter_view data) as [[[c l] f]|]; cbn;
      [destruct (c + 1 >? 10 ^ l - 1)%Z; cbn|]; split; discriminate.
  - split.
    + intros (d & [= <-] & Hf). congruence.
    + destruct (counter_view data) as [[[c l] f]|]; cbn;
        [destruct (c + 1 >? 10 ^ l - 1)%Z; cbn|]; discriminate.
  - intros d current length field [= <-] _ Hview _ _. rewrite Hview. cbn.
    destruct (current + 1 >? 10 ^ length - 1)%Z eqn:Hgt; cbn;
      rewrite Z.gtb_ltb in Hgt.
    + apply Z.ltb_lt in Hgt. split; split.
      * reflexivity.
      * intros _. exact Hgt.
      * intros Hle. exfalso. clear - Hgt Hle. lia.
      * intros (k & Hk). discriminate Hk.
    + apply Z.ltb_ge in Hgt. split; split.
      * intros Hlt. exfalso. clear - Hgt Hlt. lia.
      * discriminate.
      * intros _. eexists. reflexivity.
      * intros _. exact Hgt.
Qed.

Lemma setAutonumber_outcome_witness :
  fst (ServerAdapter.setAutonumber Customers (Some 7) None (initial ∅ ∅))
  = Err NotFound
  /\ exists updateAutonumber,
       fst (ServerAdapter.setAutonumber Customers (Some 7) None
              (initial ∅ counters))
       = Ok updateAutonumber.
Proof.
  split.
  - destruct (setAutonumber_outcome Customers 7 None (initial ∅ ∅))
      as [[Hmissing _] _].
    apply Hmissing. vm_compute. reflexivity.
  - destruct (setAutonumber_outcome Customers 7 None (initial ∅ counters))
      as (_ & _ & Henabled).
    destruct (Henabled (counter_doc true 8 4 (str "code")) 8%Z 4%Z
                (str "code")) as [_ [Hroom _]].
    + vm_compute. reflexivity.
    + vm_compute. reflexivity.
    + vm_compute. reflexivity.
    + unfold safe_integer. lia.
    + unfold safe_integer. lia.
    + apply Hroom. apply Z.leb_le. reflexivity.
Defined.

(* ----------------------------------------------------------------- *)
(** ** What a committed create leaves in the store *)

Arguments apply_writes : simpl never.

Ltac commit_facts :=
  match goal with
  | Hw : apply_writes (db ?sc) (default [] (txns ?sc !! ?n)) = _,
    Hdb : db ?sc = _,
    Hbuf : default [] (txns ?sc !! ?n) = _ |- _ =>
      rewrite Hbuf, Hdb in Hw; cbn in Hw;
      rewrite ?lookup_insert_eq in Hw; cbn in Hw
  end.


(** A [create] in a transaction of its own that returns has committed the
    entity's [set], then the counter's [update] if it numbered the entity,
    then the callback's writes. *)
Lemma create_commits drv cls a s docRef s' :
  c_transaction a = None ->
  ServerAdapter.create drv cls a s = (Ok docRef, s') ->
  exists t1 data counter_writes,
    beforeCreate cls (this s) = Ok t1
    /\ docRef = (getCollectionPath cls (c_prefix a),
                 if given (c_docId a) then default [] (c_docId a)
                 else autoId drv (minted s))
    /\ toFirestore cls (this s') = Ok data
    /\ apply_writes (db s)
         (WSet docRef data
          :: counter_writes ++ callBack_writes (c_callBack a) (db s))
       = Some (db s')
    /\ ((useAutonumber cls && c_useAutonumber a = false
         /\ counter_writes = []
         /\ this s' = stamp docRef.2 (VDate (clock drv (ticks s)))
                        (VDate (clock drv (S (ticks s)))) t1)
        \/ (useAutonumber cls && c_useAutonumber a = true
            /\ exists data0 current length field,
                 db s !! ServerAdapter.counterRef cls (c_prefix a) = Some data0
                 /\ truthy (prop data0 "status") = true
                 /\ counter_view data0 = Some (current, length, field)
                 /\ (current + 1 <= 10 ^ length - 1)%Z
                 /\ counter_writes
                    = [WUpdate (ServerAdapter.counterRef cls (c_prefix a))
                         {[str "current" := VInt (current + 1)]}]
                 /\ this s' = stamp docRef.2 (VDate (clock drv (ticks s)))
                                (VDate (clock drv (S (ticks s))))
                                (<[field := VStr (code_of length (current + 1))]>
                                   t1))).
Proof.
  intros Htxn.
  unfold ServerAdapter.create, ServerAdapter.create_performTransaction,
    runTransaction.
  rewrite Htxn.
  unfold ServerAdapter.setAutonumber, doc_get,
    ServerAdapter.txn_set_this, new_Date, doc_auto, run_hook,
    ServerAdapter.run_validate, txn_write.
  run. cbn. exec; try discriminate.
  all: intros [= <- <-]; callback_facts; commit_facts.
  all: cbn in *.
  all: repeat match goal with
       | H : negb _ = false |- _ => apply negb_false_iff in H
       | H : (_ >? _)%Z = false |- _ =>
           rewrite Z.gtb_ltb in H; apply Z.ltb_ge in H
       end.
  all: match goal with H : this _ = _ |- _ => rename H into Hthis end.
  all: do 2 eexists;
    match goal with
    | H : useAutonumber _ && _ = false |- _ => exists (@nil Write)
    | H : counter_view _ = Some (?c, _, _) |- _ =>
        exists [WUpdate (ServerAdapter.counterRef cls (c_prefix a))
                  {[str "current" := VInt (c + 1)]}]
    end; split; [reflexivity|]; split; [reflexivity|].
  all: rewrite Hthis; cbn; split; [eassumption|]; split; [eassumption|].
  all: first
         [ left; split; [reflexivity|]; split; reflexivity
         | right; split; [reflexivity|]; do 4 eexists;
           repeat (split; [eassumption|]); split; reflexivity ].
Qed.

Lemma apply_writes_cons db w ws :
  apply_writes db (w :: ws)
  = match apply_write db w with
    | Some db' => apply_writes db' ws
    | None => None
    end.
Proof. reflexivity. Qed.

Lemma elem_of_spared callBack refs d w ref :
  callBack_spares callBack refs ->
  w ∈ callBack_writes callBack d -> ref ∈ refs -> write_ref w <> ref.
Proof. intros Hs Hw Hr Heq. apply (Hs d w Hw). now rewrite Heq. Qed.

(** X9.  After a [create] in a transaction of its own that returns, the
    store holds, at the reference returned, the converter's image of the
    instance as the call left it, and [fetchDoc] of that id gives it back
    through the converter, touching neither the store nor the instance.
    (The callback writes nothing at that reference, and the reference is
    not the counter's.) *)
Theorem create_then_fetchDoc drv rd cls a s docRef s' :
  c_transaction a = None ->
  callBack_spares (c_callBack a) [docRef] ->
  (useAutonumber cls && c_useAutonumber a = true ->
   docRef <> ServerAdapter.counterRef cls (c_prefix a)) ->
  docRef.2 <> [] ->
  ServerAdapter.create drv cls a s = (Ok docRef, s') ->
  exists data s'',
    toFirestore cls (this s') = Ok data
    /\ db s' !! docRef = Some data
    /\ fetchDoc rd cls (Some docRef.2) None (c_prefix a) s'
       = (match fromFirestore rd data with
          | Ok item => Ok (Some item)
          | Err e => Err e
          end, s'')
    /\ db s'' = db s' /\ this s'' = this s'.
Proof.
  intros Htxn Hspare Hcounter Hid Hrun.
  destruct (create_commits _ _ _ _ _ _ Htxn Hrun)
    as (t1 & data & cw & _ & Href & Hconv & Hw & Hauto).
  assert (Hstored : db s' !! docRef = Some data).
  { rewrite apply_writes_cons in Hw. cbn [apply_write] in Hw.
    rewrite (apply_writes_other _ _ _ docRef Hw); [apply lookup_insert_eq|].
    intros w Hin. apply elem_of_app in Hin as [Hin | Hin].
    - destruct Hauto as [(_ & -> & _) | (Ha & d0 & c & l & f & _ & _ & _ & _ & -> & _)].
      + now apply elem_of_nil in Hin.
      + apply list_elem_of_singleton in Hin as ->. cbn. intros Heq.
        now apply (Hcounter Ha).
    - apply (elem_of_spared _ _ _ _ _ Hspare Hin). left. }
  exists data. unfold fetchDoc, given.
  destruct docRef as [path id]. cbn in Hid, Href |- *.
  destruct id as [|u id]; [congruence|]. cbn.
  injection Href as Hpath _. rewrite <- Hpath.
  unfold doc_get, snapshot_data. run. cbn. rewrite Hstored. cbn.
  destruct (fromFirestore rd data); eexists; repeat split; try eassumption;
    reflexivity.
Qed.

Lemma create_then_fetchDoc_witness :
  let a := numbered_create in
  let s := initial ∅ counters in
  let docRef := (str "Customers", str "c1") in
  let s' := snd (ServerAdapter.create demo_driver Customers a s) in
  exists data s'',
    toFirestore Customers (this s') = Ok data
    /\ db s' !! docRef = Some data
    /\ fetchDoc plain_reader Customers (Some docRef.2) None (c_prefix a) s'
       = (match fromFirestore plain_reader data with
          | Ok item => Ok (Some item)
          | Err e => Err e
          end, s'')
    /\ db s'' = db s' /\ this s'' = this s'.
Proof.
  intros a s docRef s'.
  apply (create_then_fetchDoc demo_driver plain_reader Customers a s docRef
           s').
  - reflexivity.
  - intros d w Hw. now apply elem_of_nil in Hw.
  - intros _. vm_compute. discriminate.
  - vm_compute. discriminate.
  - vm_compute. reflexivity.
Defined.

(** X10.  With a counter document of integer [current] and [length] and
    string [field], [current] and [10 ^ length - 1] being safe integers, a
    [create] in a transaction of its own that numbers the entity and
    returns has found the counter enabled and with room, has moved it from
    [current] to [current + 1], its other fields kept, and has put the
    code of [current + 1] on the instance under the counter's field,
    before the stamps.  (The callback does not write the counter.) *)
Theorem create_advances_counter drv cls a s docRef s' data0 current length
    field :
  c_transaction a = None ->
  useAutonumber cls && c_useAutonumber a = true ->
  db s !! ServerAdapter.counterRef cls (c_prefix a) = Some data0 ->
  counter_view data0 = Some (current, length, field) ->
  safe_integer current ->
  safe_integer (10 ^ length - 1) ->
  callBack_spares (c_callBack a)
    [ServerAdapter.counterRef cls (c_prefix a)] ->
  docRef <> ServerAdapter.counterRef cls (c_prefix a) ->
  ServerAdapter.create drv cls a s = (Ok docRef, s') ->
  exists t1,
    beforeCreate cls (this s) = Ok t1
    /\ truthy (prop data0 "status") = true
    /\ (current + 1 <= 10 ^ length - 1)%Z
    /\ safe_integer (current + 1)
    /\ db s' !! ServerAdapter.counterRef cls (c_prefix a)
       = Some ({[str "current" := VInt (current + 1)]} ∪ data0)
    /\ counter_at cls (c_prefix a) length field s' (current + 1)
    /\ this s' = stamp docRef.2 (VDate (clock drv (ticks s)))
                   (VDate (clock drv (S (ticks s))))
                   (<[field := VStr (code_of length (current + 1))]> t1).
Proof.
  intros Htxn Hauto Hdoc Hview Hc HL Hspare Hne Hrun.
  destruct (create_commits _ _ _ _ _ _ Htxn Hrun)
    as (t1 & data & cw & Hhook & Href & Hconv & Hw
        & [(Hoff & _) | (_ & d0 & c & l & f & Hd0 & Hst & Hview' & Hle & -> & Hthis)]);
    [congruence|].
  rewrite Hdoc in Hd0. injection Hd0 as <-.
  rewrite Hview in Hview'. injection Hview' as <- <- <-.
  assert (Hstored :
    db s' !! ServerAdapter.counterRef cls (c_prefix a)
    = Some ({[str "current" := VInt (current + 1)]} ∪ data0)).
  { rewrite apply_writes_cons in Hw. cbn [apply_write] in Hw.
    cbn [app] in Hw. rewrite apply_writes_cons in Hw. cbn [apply_write] in Hw.
    rewrite lookup_insert_ne, Hdoc in Hw by exact Hne.
    rewrite (apply_writes_other _ _ _ _ Hw); [apply lookup_insert_eq|].
    intros w Hin. apply (elem_of_spared _ _ _ _ _ Hspare Hin). left. }
  destruct (counter_view_update data0 current length field (current + 1) Hview)
    as [Hview' Hst'].
  exists t1. repeat split; try assumption.
  - unfold safe_integer in *. lia.
  - unfold safe_integer in *. lia.
  - exists ({[str "current" := VInt (current + 1)]} ∪ data0).
    repeat split; [assumption | now rewrite Hst' | assumption].
Qed.

Lemma create_advances_counter_witness :
  let a := numbered_create in
  let s := initial ∅ counters in
  let docRef := (str "Customers", str "c1") in
  let s' := snd (ServerAdapter.create demo_driver Customers a s) in
  let data0 := counter_doc true 8 4 (str "code") in
  exists t1,
    beforeCreate Customers (this s) = Ok t1
    /\ truthy (prop data0 "status") = true
    /\ (8 + 1 <= 10 ^ 4 - 1)%Z
    /\ safe_integer (8 + 1)
    /\ db s' !! ServerAdapter.counterRef Customers (c_prefix a)
       = Some ({[str "current" := VInt (8 + 1)]} ∪ data0)
    /\ counter_at Customers (c_prefix a) 4 (str "code") s' (8 + 1)
    /\ this s' = stamp docRef.2 (VDate (clock demo_driver (ticks s)))
                   (VDate (clock demo_driver (S (ticks s))))
                   (<[str "code" := VStr (code_of 4 (8 + 1))]> t1).
Proof.
  intros a s docRef s' data0.
  apply (create_advances_counter demo_driver Customers a s docRef s' data0
           8 4 (str "code")).
  - reflexivity.
  - reflexivity.
  - vm_compute. reflexivity.
  - vm_compute. reflexivity.
  - unfold safe_integer. lia.
  - unfold safe_integer. lia.
  - intros d w Hw. now apply elem_of_nil in Hw.
  - vm_compute. discriminate.
  - vm_compute. reflexivity.
Defined.

(** X11.  A [create] in a transaction of its own that returns leaves every
    document other than the entity's, the counter's and those the callback
    writes as it was.  The archive record of the same id is such a
    document: [create] neither looks at it nor removes it. *)
Theorem create_leaves_other_documents drv cls a s docRef s' ref :
  c_transaction a = None ->
  ServerAdapter.create drv cls a s = (Ok docRef, s') ->
  ref <> docRef ->
  ref <> ServerAdapter.counterRef cls (c_prefix a) ->
  (forall w, w ∈ callBack_writes (c_callBack a) (db s) -> write_ref w <> ref) ->
  db s' !! ref = db s !! ref.
Proof.
  intros Htxn Hrun Hdoc Hcounter Hcb.
  destruct (create_commits _ _ _ _ _ _ Htxn Hrun)
    as (t1 & data & cw & _ & _ & _ & Hw & Hauto).
  rewrite (apply_writes_other _ _ _ ref Hw).
  - reflexivity.
  - intros w Hin. apply elem_of_cons in Hin as [-> | Hin];
      [cbn; congruence|].
    apply elem_of_app in Hin as [Hin | Hin]; [|now apply Hcb].
    destruct Hauto as [(_ & -> & _) | (_ & d0 & c & l & f & _ & _ & _ & _ & -> & _)].
    + now apply elem_of_nil in Hin.
    + apply list_elem_of_singleton in Hin as ->. cbn. congruence.
Qed.

Lemma create_leaves_other_documents_witness :
  let a := numbered_create in
  let s :=
    initial ∅ (<[(str "Customers_archive", str "c1") := customer_c1]>
                 counters) in
  let s' := snd (ServerAdapter.create demo_driver Customers a s) in
  db s' !! (str "Customers_archive", str "c1")
  = db s !! (str "Customers_archive", str "c1").
Proof.
  intros a s s'.
  apply (create_leaves_other_documents demo_driver Customers a s
           (str "Customers", str "c1") s').
  - reflexivity.
  - vm_compute. reflexivity.
  - vm_compute. discriminate.
  - vm_compute. discriminate.
  - intros w Hw. now apply elem_of_nil in Hw.
Defined.

(** X12.  When autonumbering is active and the counter cannot give a
    number (it is missing, or disabled, or well formed, within the safe
    integers and full), [create] fails with the allocator's error,
    [NotFound], [Disabled] or [Overflow], having done nothing but run the
    hook and read the counter: no id is assigned or generated, the clock
    is not read, the instance carries no stamp, and no write is issued. *)
Theorem create_allocator_failure_is_clean drv cls a s t1 :
  callBack_rejected (c_callBack a) = false ->
  beforeCreate cls (this s) = Ok t1 ->
  validate cls t1 = Ok tt ->
  useAutonumber cls && c_useAutonumber a = true ->
  counter_exhausted cls (c_prefix a) s ->
  let r := fst (ServerAdapter.create drv cls a s) in
  let s' := snd (ServerAdapter.create drv cls a s) in
  r = match db s !! ServerAdapter.counterRef cls (c_prefix a) with
      | None => Err NotFound
      | Some data =>
          if truthy (prop data "status") then Err Overflow else Err Disabled
      end
  /\ this s' = t1 /\ ticks s' = ticks s /\ minted s' = minted s
  /\ db s' = db s
  /\ accesses_since s s'
     = [AGet (ServerAdapter.counterRef cls (c_prefix a))].
Proof.
  intros Hcb Hhook Hvalid Hauto Hex r s'. subst r s'.
  unfold counter_exhausted in Hex.
  destruct (ServerAdapter.create drv cls a s) as [r s'] eqn:Hrun.
  revert Hrun.
  unfold ServerAdapter.create, ServerAdapter.create_performTransaction,
    runTransaction.
  rewrite Hcb, Hauto.
  unfold ServerAdapter.setAutonumber, doc_get, ServerAdapter.txn_set_this,
    new_Date, doc_auto, run_hook, ServerAdapter.run_validate, txn_write.
  run. cbn. rewrite Hhook. cbn. rewrite Hvalid. cbn.
  destruct (c_transaction a) as [txn|]; cbn.
  all: destruct (db s !! ServerAdapter.counterRef cls (c_prefix a))
         as [data|] eqn:Hdoc; cbn.
  all: try (intros [= <- <-]; cbn; unfold accesses_since; cbn;
            rewrite drop_app_length; repeat split; reflexivity).
  all: destruct (truthy (prop data "status")) eqn:Hst; cbn.
  all: try (intros [= <- <-]; cbn; unfold accesses_since; cbn;
            rewrite drop_app_length; repeat split; reflexivity).
  all: destruct Hex as [Hoff | (c & L & f & Hview & _ & _ & Hfull)];
    [discriminate|].
  all: rewrite Hview; cbn.
  all: replace (c + 1 >? 10 ^ L - 1)%Z with true
         by (symmetry; rewrite Z.gtb_ltb; apply Z.ltb_lt; lia).
  all: cbn; intros [= <- <-]; cbn; unfold accesses_since; cbn;
    rewrite drop_app_length; repeat split; reflexivity.
Qed.

(** The counter at 9 of at most 9. *)
Lemma create_allocator_failure_is_clean_witness :
  let a := numbered_create in
  let s := initial customer_c1
             {[ (str "Autonumbers", str "Customers") :=
                  counter_doc true 9 1 (str "code") ]} in
  let r := fst (ServerAdapter.create demo_driver Customers a s) in
  let s' := snd (ServerAdapter.create demo_driver Customers a s) in
  r = match db s !! ServerAdapter.counterRef Customers (c_prefix a) with
      | None => Err NotFound
      | Some data =>
          if truthy (prop data "status") then Err Overflow else Err Disabled
      end
  /\ this s' = customer_c1 /\ ticks s' = ticks s /\ minted s' = minted s
  /\ db s' = db s
  /\ accesses_since s s'
     = [AGet (ServerAdapter.counterRef Customers (c_prefix a))].
Proof.
  intros a s.
  apply (create_allocator_failure_is_clean demo_driver Customers a s
           customer_c1).
  - reflexivity.
  - reflexivity.
  - reflexivity.
  - reflexivity.
  - unfold counter_exhausted.
    replace (db s !! ServerAdapter.counterRef Customers (c_prefix a))
      with (Some (counter_doc true 9 1 (str "code")))
      by (vm_compute; reflexivity).
    right. exists 9%Z, 1%Z, (str "code").
    split; [vm_compute; reflexivity|]. unfold safe_integer. lia.
Defined.

(* ----------------------------------------------------------------- *)
(** ** update *)

(** An [update] in a transaction of its own that returns has committed the
    entity's [set], then the callback's writes. *)
Lemma update_commits drv cls a s docRef s' :
  e_transaction a = None ->
  ServerAdapter.update drv cls a s = (Ok docRef, s') ->
  exists t1 data,
    beforeUpdate cls (this s) = Ok t1
    /\ prop t1 "docId" = VStr docRef.2
    /\ docRef.1 = getCollectionPath cls (e_prefix a)
    /\ this s' = <[str "uid" := VStr (str "cloud functions")]>
                   (<[str "updatedAt" := VDate (clock drv (ticks s))]> t1)
    /\ ticks s' = S (ticks s)
    /\ toFirestore cls (this s') = Ok data
    /\ apply_writes (db s)
         (WSet docRef data :: callBack_writes (e_callBack a) (db s))
       = Some (db s').
Proof.
  intros Htxn.
  unfold ServerAdapter.update, ServerAdapter.update_performTransaction,
    runTransaction.
  rewrite Htxn.
  unfold doc, ServerAdapter.txn_set_this, new_Date, run_hook,
    ServerAdapter.run_validate, txn_write.
  run. cbn. exec; try discriminate.
  all: intros [= <- <-]; callback_facts; commit_facts.
  all: cbn in *.
  all: match goal with H : this _ = _ |- _ => rename H into Hthis end.
  all: match goal with H : ticks _ = _ |- _ => rename H into Hticks end.
  all: do 2 eexists; split; [reflexivity|]; split; [eassumption|].
  all: split; [reflexivity|].
  all: rewrite Hthis, Hticks; cbn; split; [reflexivity|]; split; [reflexivity|].
  all: split; eassumption.
Qed.

(** X13.  An [update] in a transaction of its own that returns has
    stamped [updatedAt], from one reading of the clock, and [uid], and
    nothing else: [docId] and [createdAt] are as the hook left them.  At
    the reference returned the store holds the converter's image of the
    instance, whatever was there before and even if nothing was; the
    other documents, but for those the callback writes, are as they
    were. *)
Theorem update_replaces_document drv cls a s docRef s' :
  e_transaction a = None ->
  callBack_spares (e_callBack a) [docRef] ->
  ServerAdapter.update drv cls a s = (Ok docRef, s') ->
  exists t1 data,
    beforeUpdate cls (this s) = Ok t1
    /\ this s' = <[str "uid" := VStr (str "cloud functions")]>
                   (<[str "updatedAt" := VDate (clock drv (ticks s))]> t1)
    /\ prop (this s') "docId" = VStr docRef.2
    /\ prop (this s') "createdAt" = prop t1 "createdAt"
    /\ ticks s' = S (ticks s)
    /\ toFirestore cls (this s') = Ok data
    /\ db s' !! docRef = Some data
    /\ forall ref,
         ref <> docRef ->
         (forall w, w ∈ callBack_writes (e_callBack a) (db s) ->
                    write_ref w <> ref) ->
         db s' !! ref = db s !! ref.
Proof.
  intros Htxn Hspare Hrun.
  destruct (update_commits _ _ _ _ _ _ Htxn Hrun)
    as (t1 & data & Hhook & Hid & _ & Hthis & Hticks & Hconv & Hw).
  exists t1, data. repeat split; try assumption.
  - rewrite Hthis. unfold prop.
    rewrite !lookup_insert_ne by (apply str_neq; reflexivity). exact Hid.
  - rewrite Hthis. unfold prop.
    now rewrite !lookup_insert_ne by (apply str_neq; reflexivity).
  - rewrite apply_writes_cons in Hw. cbn [apply_write] in Hw.
    rewrite (apply_writes_other _ _ _ docRef Hw); [apply lookup_insert_eq|].
    intros w Hin. apply (elem_of_spared _ _ _ _ _ Hspare Hin). left.
  - intros ref Hne Hcb. rewrite (apply_writes_other _ _ _ ref Hw);
      [reflexivity|].
    intros w Hin. apply elem_of_cons in Hin as [-> | Hin];
      [cbn; congruence | now apply Hcb].
Qed.

Lemma update_replaces_document_witness :
  let a := plain_edit in
  let s := initial visitor_v1 ∅ in
  let docRef := (str "Visitors", str "v1") in
  let s' := snd (ServerAdapter.update demo_driver Visitors a s) in
  exists t1 data,
    beforeUpdate Visitors (this s) = Ok t1
    /\ this s' = <[str "uid" := VStr (str "cloud functions")]>
                   (<[str "updatedAt" := VDate (clock demo_driver (ticks s))]>
                      t1)
    /\ prop (this s') "docId" = VStr docRef.2
    /\ prop (this s') "createdAt" = prop t1 "createdAt"
    /\ ticks s' = S (ticks s)
    /\ toFirestore Visitors (this s') = Ok data
    /\ db s' !! docRef = Some data
    /\ forall ref,
         ref <> docRef ->
         (forall w, w ∈ callBack_writes (e_callBack a) (db s) ->
                    write_ref w <> ref) ->
         db s' !! ref = db s !! ref.
Proof.
  intros a s docRef s'.
  apply (update_replaces_document demo_driver Visitors a s docRef s').
  - reflexivity.
  - intros d w Hw. now apply elem_of_nil in Hw.
  - vm_compute. reflexivity.
Defined.

(* ----------------------------------------------------------------- *)
(** ** delete *)

(** A [delete] in a transaction of its own that returns has found no
    dependent record and has committed the archive [set], if the class
    archives, then the [delete] of the record, then the callback's
    writes. *)
Lemma delete_commits drv cls a s s' :
  e_transaction a = None ->
  ServerAdapter.delete drv cls a s = (Ok tt, s') ->
  exists t1 docId archived,
    beforeDelete cls (this s) = Ok t1
    /\ prop t1 "docId" = VStr docId
    /\ docId <> []
    /\ this s' = t1
    /\ ticks s' = ticks s
    /\ (forall i, i ∈ hasMany cls ->
          ~ has_dependent drv (e_prefix a) (VStr docId) (db s) i)
    /\ apply_writes (db s)
         (archived
          ++ WDelete (getCollectionPath cls (e_prefix a), docId)
             :: callBack_writes (e_callBack a) (db s))
       = Some (db s')
    /\ (if logicalDelete cls
        then exists data,
               db s !! (getCollectionPath cls (e_prefix a), docId) = Some data
               /\ archived
                  = [WSet (getCollectionPath cls (e_prefix a)
                           ++ str "_archive", docId) data]
        else archived = []).
Proof.
  intros Htxn. unfold ServerAdapter.delete.
  destruct (callBack_rejected (e_callBack a)); [discriminate|].
  run. destruct (negb (truthy (prop (this s) "docId"))); [discriminate|].
  cbn. unfold run_hook.
  destruct (beforeDelete cls (this s)) as [t1|e] eqn:Hhook; [|discriminate].
  cbn. unfold doc. rewrite Htxn.
  destruct (prop t1 "docId") as [| | | |docId| |] eqn:Hid; try discriminate.
  destruct docId as [|u docId]; [discriminate|]. cbn.
  unfold ServerAdapter.delete_performTransaction, ServerAdapter.hasChild,
    runTransaction.
  run. cbn. rewrite !Hid. cbn.
  destruct (ServerAdapter.hasChild_loop _ _ _ _ _) as [r0 s0] eqn:Hloop.
  apply hasChild_loop_spec in Hloop
      as (H1 & H2 & H3 & H4 & H5 & H6 & (qs & Hq & Hw) & found & -> & Hfound).
  cbn in H1, H2, H3, H4, H5, H6, Hq.
  destruct found as [item|]; [discriminate|]. cbn.
  unfold doc_get, txn_write.
  destruct (logicalDelete cls) eqn:Hlog; cbn.
  - rewrite H2.
    destruct (db s !! (getCollectionPath cls (e_prefix a), u :: docId))
      as [data|] eqn:Hdata; [|discriminate].
    cbn. rewrite H1, Hid. cbn.
    destruct (run_callBack _ _ _) as [r sc] eqn:Hcall.
    apply run_callBack_spec in Hcall
      as (Hthis & Hdb & Hticks & _ & _ & _ & Hbuf & _ & Hres).
    cbn in Hthis, Hdb, Hticks, Hbuf.
    rewrite !lookup_insert_eq in Hbuf. cbn in Hbuf.
    rewrite H3, lookup_insert_eq in Hbuf. cbn in Hbuf.
    destruct r as [[]|e]; [|discriminate].
    rewrite Hbuf, Hdb, H2.
    destruct (apply_writes _ _) as [db1|] eqn:Hws; [|discriminate].
    intros [= <-]. cbn.
    exists t1, (u :: docId),
      [WSet (getCollectionPath cls (e_prefix a) ++ str "_archive", u :: docId)
         data].
    rewrite Hthis, Hticks, H1, H5.
    repeat split; try assumption; try reflexivity; try discriminate.
    exists data. split; [assumption | reflexivity].
  - destruct (run_callBack _ _ _) as [r sc] eqn:Hcall.
    apply run_callBack_spec in Hcall
      as (Hthis & Hdb & Hticks & _ & _ & _ & Hbuf & _ & Hres).
    cbn in Hthis, Hdb, Hticks, Hbuf.
    rewrite !lookup_insert_eq in Hbuf. cbn in Hbuf.
    rewrite H3, lookup_insert_eq in Hbuf. cbn in Hbuf.
    destruct r as [[]|e]; [|discriminate].
    rewrite Hbuf, Hdb, H2.
    destruct (apply_writes _ _) as [db1|] eqn:Hws; [|discriminate].
    intros [= <-]. cbn.
    exists t1, (u :: docId), [].
    rewrite Hthis, Hticks, H1, H5.
    repeat split; try assumption; try reflexivity; try discriminate.
Qed.

(** X14.  A [delete] in a transaction of its own that returns leaves no
    record at the entity's reference (the callback not writing there) and
    leaves the instance as the hook left it, [docId] and data included.
    It touches no other document, but for the archive record when the
    class archives and for those the callback writes; a class that does
    not archive leaves the archive collection alone. *)
Theorem delete_touches_only_its_records drv cls a s s' :
  e_transaction a = None ->
  ServerAdapter.delete drv cls a s = (Ok tt, s') ->
  exists t1 docId,
    beforeDelete cls (this s) = Ok t1
    /\ prop t1 "docId" = VStr docId
    /\ this s' = t1
    /\ (callBack_spares (e_callBack a)
          [(getCollectionPath cls (e_prefix a), docId)] ->
        db s' !! (getCollectionPath cls (e_prefix a), docId) = None)
    /\ forall ref,
         ref <> (getCollectionPath cls (e_prefix a), docId) ->
         (logicalDelete cls = true ->
          ref <> (getCollectionPath cls (e_prefix a) ++ str "_archive",
                  docId)) ->
         (forall w, w ∈ callBack_writes (e_callBack a) (db s) ->
                    write_ref w <> ref) ->
         db s' !! ref = db s !! ref.
Proof.
  intros Htxn Hrun.
  destruct (delete_commits _ _ _ _ _ Htxn Hrun)
    as (t1 & docId & archived & Hhook & Hid & _ & Hthis & _ & _ & Hw & Harch).
  exists t1, docId. repeat split; try assumption.
  - intros Hspare. rewrite apply_writes_app in Hw.
    destruct (apply_writes (db s) archived) as [db1|]; [|discriminate].
    rewrite apply_writes_cons in Hw. cbn [apply_write] in Hw.
    rewrite (apply_writes_other _ _ _ _ Hw); [apply lookup_delete_eq|].
    intros w Hin. apply (elem_of_spared _ _ _ _ _ Hspare Hin). left.
  - intros ref Hprimary Harchive Hcb.
    rewrite (apply_writes_other _ _ _ ref Hw); [reflexivity|].
    intros w Hin. apply elem_of_app in Hin as [Hin | Hin].
    + destruct (logicalDelete cls).
      * destruct Harch as (data & _ & ->).
        apply list_elem_of_singleton in Hin as ->. cbn. intros Heq.
        now apply Harchive.
      * subst archived. now apply elem_of_nil in Hin.
    + apply elem_of_cons in Hin as [-> | Hin];
        [cbn; congruence | now apply Hcb].
Qed.

Lemma delete_touches_only_its_records_witness :
  let a := plain_edit in
  let s := initial customer_c1 customers_db in
  let s' := snd (ServerAdapter.delete demo_driver Customers a s) in
  exists t1 docId,
    beforeDelete Customers (this s) = Ok t1
    /\ prop t1 "docId" = VStr docId
    /\ this s' = t1
    /\ (callBack_spares (e_callBack a)
          [(getCollectionPath Customers (e_prefix a), docId)] ->
        db s' !! (getCollectionPath Customers (e_prefix a), docId) = None)
    /\ forall ref,
         ref <> (getCollectionPath Customers (e_prefix a), docId) ->
         (logicalDelete Customers = true ->
          ref <> (getCollectionPath Customers (e_prefix a) ++ str "_archive",
                  docId)) ->
         (forall w, w ∈ callBack_writes (e_callBack a) (db s) ->
                    write_ref w <> ref) ->
         db s' !! ref = db s !! ref.
Proof.
  intros a s s'.
  apply (delete_touches_only_its_records demo_driver Customers a s s').
  - reflexivity.
  - vm_compute. reflexivity.
Defined.

(** X15.  When the entity's record is not in the store (and nothing else
    stands in the way: the hook passes, no record depends on the entity,
    the callback is quiet), a class that archives fails with [NotFound]
    having issued no write, while a class that does not archive returns,
    having issued the [delete] all the same; the documents are unchanged
    either way. *)
Theorem delete_of_missing_document drv cls a s t1 docId :
  callBack_rejected (e_callBack a) = false ->
  (forall f, e_callBack a = CbFunction f -> f (db s) = Ok []) ->
  truthy (prop (this s) "docId") = true ->
  beforeDelete cls (this s) = Ok t1 ->
  prop t1 "docId" = VStr docId ->
  docId <> [] ->
  (forall i, i ∈ hasMany cls ->
     ~ has_dependent drv (e_prefix a) (VStr docId) (db s) i) ->
  db s !! (getCollectionPath cls (e_prefix a), docId) = None ->
  let r := fst (ServerAdapter.delete drv cls a s) in
  let s' := snd (ServerAdapter.delete drv cls a s) in
  db s' = db s
  /\ if logicalDelete cls
     then r = Err NotFound /\ writes_of (accesses_since s s') = []
     else r = Ok tt
          /\ writes_of (accesses_since s s')
             = [WDelete (getCollectionPath cls (e_prefix a), docId)].
Proof.
  intros Hcb Hquiet Htruthy Hhook Hid Hne Hnone Hmissing.
  unfold ServerAdapter.delete. rewrite Hcb. run. rewrite Htruthy. cbn.
  unfold run_hook. rewrite Hhook. cbn. unfold doc. rewrite Hid.
  destruct docId as [|u docId]; [congruence|]. cbn.
  assert (Hcall : forall txn s0,
            db s0 = db s -> run_callBack (e_callBack a) txn s0 = (Ok tt, s0)).
  { intros txn s0 Heq. destruct (e_callBack a) as [f|v] eqn:Ha; cbn.
    - rewrite Heq, (Hquiet f eq_refl). reflexivity.
    - reflexivity. }
  unfold ServerAdapter.delete_performTransaction, ServerAdapter.hasChild,
    runTransaction.
  destruct (e_transaction a) as [txn|]; run; cbn; rewrite !Hid; cbn.
  all: destruct (ServerAdapter.hasChild_loop _ _ _ _ _) as [r0 s0] eqn:Hloop.
  all: apply hasChild_loop_spec in Hloop
      as (H1 & H2 & H3 & H4 & H5 & H6 & (qs & Hq & Hw) & found & -> & Hfound).
  all: cbn in H1, H2, H3, H4, H5, H6, Hq.
  all: destruct found as [item|];
    [destruct Hfound as (before & after & Hitems & _ & Hdep);
     exfalso; apply (Hnone item); [rewrite Hitems; set_solver | exact Hdep]|].
  all: cbn; unfold doc_get, txn_write.
  all: destruct (logicalDelete cls) eqn:Hlog; cbn.
  all: rewrite ?H2, ?Hmissing; cbn.
  - split; [assumption|]. split; [reflexivity|].
    unfold accesses_since. cbn. rewrite Hq, <- app_assoc, drop_app_length.
    rewrite writes_of_app, Hw. reflexivity.
  - match goal with |- context [run_callBack ?c ?t ?s1] =>
      rewrite (Hcall t s1) by (cbn; assumption) end.
    cbn. split; [assumption|]. split; [reflexivity|].
    unfold accesses_since. cbn. rewrite Hq, <- app_assoc, drop_app_length.
    rewrite writes_of_app, Hw. reflexivity.
  - split; [assumption|]. split; [reflexivity|].
    unfold accesses_since. cbn. rewrite Hq, <- app_assoc, drop_app_length.
    rewrite writes_of_app, Hw. reflexivity.
  - match goal with |- context [run_callBack ?c ?t ?s1] =>
      rewrite (Hcall t s1) by (cbn; assumption) end.
    cbn. rewrite lookup_insert_eq. cbn. rewrite H3, lookup_insert_eq. cbn.
    rewrite H2. unfold apply_writes, apply_write. cbn. split.
    + now apply delete_id.
    + split; [reflexivity|].
      unfold accesses_since. cbn. rewrite Hq, <- !app_assoc, drop_app_length.
      rewrite writes_of_app, Hw. reflexivity.
Qed.

Lemma delete_of_missing_document_witness :
  let a := plain_edit in
  let s := initial visitor_v1 ∅ in
  let r := fst (ServerAdapter.delete demo_driver Visitors a s) in
  let s' := snd (ServerAdapter.delete demo_driver Visitors a s) in
  db s' = db s
  /\ if logicalDelete Visitors
     then r = Err NotFound /\ writes_of (accesses_since s s') = []
     else r = Ok tt
          /\ writes_of (accesses_since s s')
             = [WDelete (getCollectionPath Visitors (e_prefix a), str "v1")].
Proof.
  intros a s.
  apply (delete_of_missing_document demo_driver Visitors a s visitor_v1
           (str "v1")).
  - reflexivity.
  - intros f Hf. discriminate Hf.
  - vm_compute. reflexivity.
  - reflexivity.
  - vm_compute. reflexivity.
  - vm_compute. discriminate.
  - intros i Hi. now apply elem_of_nil in Hi.
  - vm_compute. reflexivity.
Defined.

(* ----------------------------------------------------------------- *)
(** ** restore *)

(** X17.  [restore] never touches the instance or a transaction.  Without
    a [docId] it fails at once; when there is no archive record it fails
    with [NotFound] after the one read; otherwise it returns the primary
    reference, having committed, in one batch, the [delete] of the archive
    record and the [set] of its data at the primary reference, whatever
    stood there. *)
Theorem restore_outcome cls docId prefix s :
  let primary := (getCollectionPath cls prefix, default [] docId) in
  let archive :=
    (getCollectionPath cls prefix ++ str "_archive", default [] docId) in
  let r := fst (ServerAdapter.restore cls docId prefix s) in
  let s' := snd (ServerAdapter.restore cls docId prefix s) in
  this s' = this s /\ txns s' = txns s
  /\ (given docId = false -> r = Err InvalidArgument /\ s' = s)
  /\ (given docId = true -> db s !! archive = None ->
      r = Err NotFound /\ db s' = db s
      /\ accesses_since s s' = [AGet archive])
  /\ (given docId = true ->
      forall data, db s !! archive = Some data ->
        r = Ok primary
        /\ db s' = <[primary := data]> (base.delete archive (db s))
        /\ accesses_since s s'
           = [AGet archive; AWrite (WDelete archive);
              AWrite (WSet primary data); ACommit]).
Proof.
  unfold ServerAdapter.restore, doc_get, batch_commit, apply_writes,
    apply_write. run.
  destruct (given docId) eqn:Hg; cbn.
  - destruct (db s !! _) as [data|] eqn:Hdata; cbn.
    + split; [reflexivity|]. split; [reflexivity|].
      split; [discriminate|]. split; [discriminate|].
      intros _ data' [= <-]. split; [reflexivity|]. split; [reflexivity|].
      unfold accesses_since. cbn. rewrite <- !app_assoc.
      apply drop_app_length.
    + split; [reflexivity|]. split; [reflexivity|].
      split; [discriminate|]. split; [|discriminate].
      intros _ _. split; [reflexivity|]. split; [reflexivity|].
      unfold accesses_since. cbn. apply drop_app_length.
  - split; [reflexivity|]. split; [reflexivity|].
    split; [intros _; split; reflexivity|]. split; discriminate.
Qed.

Lemma restore_outcome_witness :
  let s :=
    initial ∅ (<[(str "Customers_archive", str "c1") := customer_c1]>
                 (<[(str "Customers", str "c1") := visitor_v1]> ∅)) in
  let out := ServerAdapter.restore Customers (Some (str "c1")) None s in
  out.1 = Ok (str "Customers", str "c1")
  /\ db out.2 !! (str "Customers", str "c1") = Some customer_c1
  /\ db out.2 !! (str "Customers_archive", str "c1") = None.
Proof.
  intros s out.
  pose proof (restore_outcome Customers (Some (str "c1")) None s) as H.
  cbv zeta in H. destruct H as (_ & _ & _ & _ & H).
  destruct (H eq_refl customer_c1) as (Hr & Hdb & _);
    [vm_compute; reflexivity|].
  split; [exact Hr|]. unfold out. rewrite Hdb. split.
  - apply lookup_insert_eq.
  - rewrite lookup_insert_ne by (vm_compute; discriminate).
    apply lookup_delete_eq.
Defined.

(* ----------------------------------------------------------------- *)
(** ** hasChild, fetch and fetchDoc *)

(** X18.  [hasChild] only reads.  Without a [docId] on the instance it
    fails at once; otherwise it answers with the first relation of
    [hasMany], in the order of the list, under which a record refers to
    the [docId], and with [false] when there is none. *)
Theorem hasChild_finds_first_dependent drv cls transaction prefix s :
  let r := fst (ServerAdapter.hasChild drv cls transaction prefix s) in
  let s' := snd (ServerAdapter.hasChild drv cls transaction prefix s) in
  this s' = this s /\ db s' = db s /\ txns s' = txns s
  /\ writes_of (accesses_since s s') = []
  /\ (truthy (prop (this s) "docId") = false ->
      r = Err PreconditionFailed /\ s' = s)
  /\ (truthy (prop (this s) "docId") = true ->
      exists found,
        r = Ok found /\
        match found with
        | Some item =>
            exists before after,
              hasMany cls = before ++ item :: after
              /\ (forall i, i ∈ before ->
                    ~ has_dependent drv prefix (prop (this s) "docId")
                        (db s) i)
              /\ has_dependent drv prefix (prop (this s) "docId") (db s) item
        | None =>
            forall i, i ∈ hasMany cls ->
              ~ has_dependent drv prefix (prop (this s) "docId") (db s) i
        end).
Proof.
  unfold ServerAdapter.hasChild. run.
  destruct (truthy (prop (this s) "docId")); cbn.
  - destruct (ServerAdapter.hasChild_loop _ _ _ _ _) as [r0 s0] eqn:Hloop.
    apply hasChild_loop_spec in Hloop
      as (H1 & H2 & H3 & H4 & H5 & H6 & (qs & Hq & Hw) & found & -> & Hfound).
    cbn. repeat split; try assumption; try discriminate.
    + unfold accesses_since. now rewrite Hq, drop_app_length.
    + intros _. now exists found.
  - repeat split; try discriminate.
    unfold accesses_since. now rewrite drop_all.
Qed.

Lemma hasChild_finds_first_dependent_witness :
  let s := initial customer_c1 customers_with_site in
  exists item,
    fst (ServerAdapter.hasChild demo_driver Customers None None s)
    = Ok (Some item)
    /\ collection item = str "Sites".
Proof.
  intros s.
  pose proof (hasChild_finds_first_dependent demo_driver Customers None None
                s) as H.
  cbv zeta in H. destruct H as (_ & _ & _ & _ & _ & H).
  destruct (H eq_refl) as (found & Hr & Hfound).
  destruct found as [item|].
  - exists item. split; [exact Hr|].
    vm_compute in Hr. injection Hr as <-. reflexivity.
  - vm_compute in Hr. discriminate Hr.
Defined.

(** X19.  [fetch] only reads the store.  Without a [docId] it fails at
    once.  When the document is there it loads it, through the converter,
    into the instance and answers [true]; when it is not, it resets the
    instance and answers [false], without failing; when the converter
    fails the instance is as it was. *)
Theorem fetch_loads_or_resets rd cls docId transaction prefix s :
  let docRef := (getCollectionPath cls prefix, default [] docId) in
  let r := fst (fetch rd cls docId transaction prefix s) in
  let s' := snd (fetch rd cls docId transaction prefix s) in
  db s' = db s /\ txns s' = txns s
  /\ writes_of (accesses_since s s') = []
  /\ (given docId = false -> r = Err InvalidArgument /\ s' = s)
  /\ (given docId = true ->
      match db s !! docRef with
      | None => r = Ok false /\ this s' = initialize rd (this s) None
      | Some raw =>
          match fromFirestore rd raw with
          | Ok item =>
              r = Ok true /\ this s' = initialize rd (this s) (Some item)
          | Err e => r = Err e /\ this s' = this s
          end
      end).
Proof.
  unfold fetch, doc_get, snapshot_data, run_initialize. run.
  destruct (given docId); cbn.
  - destruct (db s !! _) as [raw|]; cbn.
    + destruct (fromFirestore rd raw); cbn.
      all: repeat split; try discriminate.
      all: unfold accesses_since; cbn; now rewrite drop_app_length.
    + repeat split; try discriminate.
      unfold accesses_since; cbn; now rewrite drop_app_length.
  - repeat split; try discriminate.
    unfold accesses_since. now rewrite drop_all.
Qed.

Lemma fetch_loads_or_resets_witness :
  let s := initial customer_c1 customers_db in
  let out := fetch plain_reader Customers (Some (str "c2")) None None s in
  out.1 = Ok false /\ this out.2 = initialize plain_reader (this s) None.
Proof.
  intros s out.
  pose proof (fetch_loads_or_resets plain_reader Customers (Some (str "c2"))
                None None s) as H.
  cbv zeta in H. destruct H as (_ & _ & _ & _ & H).
  exact (H eq_refl).
Defined.

(** X20.  [fetchDoc] reads the same document as [fetch] and answers with
    what [fetch] would load, or with [null], but leaves the instance as it
    is: whenever [fetch] returns, [fetchDoc] from the same state returns
    the item that [fetch] has put into the instance, and [fetch] answers
    [true] exactly when that item is not [null]. *)
Theorem fetchDoc_reads_without_loading rd cls docId transaction prefix s :
  let docRef := (getCollectionPath cls prefix, default [] docId) in
  let r := fst (fetchDoc rd cls docId transaction prefix s) in
  let s' := snd (fetchDoc rd cls docId transaction prefix s) in
  this s' = this s /\ db s' = db s /\ txns s' = txns s
  /\ writes_of (accesses_since s s') = []
  /\ (given docId = false -> r = Err InvalidArgument /\ s' = s)
  /\ (given docId = true ->
      r = match db s !! docRef with
          | None => Ok None
          | Some raw =>
              match fromFirestore rd raw with
              | Ok item => Ok (Some item)
              | Err e => Err e
              end
          end)
  /\ (forall found,
        fst (fetch rd cls docId transaction prefix s) = Ok found ->
        exists item, r = Ok item
          /\ found = match item with Some _ => true | None => false end
          /\ this (snd (fetch rd cls docId transaction prefix s))
             = initialize rd (this s) item).
Proof.
  unfold fetch, fetchDoc, doc_get, snapshot_data, run_initialize. run.
  destruct (given docId); cbn.
  - destruct (db s !! _) as [raw|]; cbn.
    + destruct (fromFirestore rd raw) as [item|e]; cbn.
      all: repeat split; try discriminate.
      all: try (unfold accesses_since; cbn; now rewrite drop_app_length).
      intros found [= <-]. exists (Some item). repeat split.
    + repeat split; try discriminate.
      * unfold accesses_since; cbn; now rewrite drop_app_length.
      * intros found [= <-]. exists None. repeat split.
  - repeat split; try discriminate.
    unfold accesses_since. now rewrite drop_all.
Qed.

Lemma fetchDoc_reads_without_loading_witness :
  let s := initial ∅ customers_db in
  let out := fetchDoc plain_reader Customers (Some (str "c1")) None None s in
  this out.2 = this s /\ out.1 = Ok (Some customer_c1).
Proof.
  intros s out.
  pose proof (fetchDoc_reads_without_loading plain_reader Customers
                (Some (str "c1")) None None s) as H.
  cbv zeta in H. destruct H as (Hthis & _ & _ & _ & _ & Hr & _).
  split; [exact Hthis|]. unfold out. rewrite (Hr eq_refl).
  vm_compute. reflexivity.
Defined.

(** X16.  After a [delete] in a transaction of its own that returns, the
    callback not writing the entity's record, [fetch] of the instance's
    [docId] answers [false] and resets the instance. *)
Theorem delete_then_fetch drv rd cls a s s' docId :
  e_transaction a = None ->
  ServerAdapter.delete drv cls a s = (Ok tt, s') ->
  prop (this s') "docId" = VStr docId ->
  callBack_spares (e_callBack a)
    [(getCollectionPath cls (e_prefix a), docId)] ->
  exists s'',
    fetch rd cls (Some docId) None (e_prefix a) s' = (Ok false, s'')
    /\ this s'' = initialize rd (this s') None
    /\ db s'' = db s'.
Proof.
  intros Htxn Hrun Hdoc Hspare.
  destruct (delete_commits _ _ _ _ _ Htxn Hrun)
    as (t1 & docId' & archived & Hhook & Hid & Hne & Hthis & _ & _ & Hw & _).
  rewrite Hthis, Hid in Hdoc. injection Hdoc as ->.
  assert (Hgone :
    db s' !! (getCollectionPath cls (e_prefix a), docId) = None).
  { rewrite apply_writes_app in Hw.
    destruct (apply_writes (db s) archived) as [db1|]; [|discriminate].
    rewrite apply_writes_cons in Hw. cbn [apply_write] in Hw.
    rewrite (apply_writes_other _ _ _ _ Hw); [apply lookup_delete_eq|].
    intros w Hin. apply (elem_of_spared _ _ _ _ _ Hspare Hin). left. }
  unfold fetch, given, doc_get, snapshot_data, run_initialize.
  destruct docId as [|u docId]; [congruence|]. run. cbn.
  rewrite Hgone. cbn. eexists. repeat split.
Qed.

Lemma delete_then_fetch_witness :
  let a := plain_edit in
  let s := initial customer_c1 customers_db in
  let s' := snd (ServerAdapter.delete demo_driver Customers a s) in
  exists s'',
    fetch plain_reader Customers (Some (str "c1")) None (e_prefix a) s'
    = (Ok false, s'')
    /\ this s'' = initialize plain_reader (this s') None
    /\ db s'' = db s'.
Proof.
  intros a s s'.
  apply (delete_then_fetch demo_driver plain_reader Customers a s s'
           (str "c1")).
  - reflexivity.
  - vm_compute. reflexivity.
  - vm_compute. reflexivity.
  - intros d w Hw. now apply elem_of_nil in Hw.
Defined.

(* ----------------------------------------------------------------- *)
(** ** Transactions *)

Lemma ACommit_not_write ws : ACommit ∉ List.map AWrite ws.
Proof.
  induction ws as [|w ws IH]; cbn.
  - apply not_elem_of_nil.
  - apply not_elem_of_cons. split; [discriminate | exact IH].
Qed.

Lemma hasChild_loop_reads drv prefix docId items s r s' :
  ServerAdapter.hasChild_loop drv prefix docId items s = (r, s') ->
  db s' = db s /\ txns s' = txns s /\ next_txn s' = next_txn s
  /\ exists queries,
       trace s' = trace s ++ queries
       /\ writes_of queries = [] /\ ACommit ∉ queries.
Proof.
  revert s. induction items as [|item rest IH]; intros s; simpl.
  - intros [= <- <-]. repeat split. exists []. rewrite app_nil_r.
    repeat split. apply not_elem_of_nil.
  - unfold query_empty. run. cbn.
    destruct (negb _).
    + intros [= <- <-]. repeat split. eexists. split; [reflexivity|].
      split; [reflexivity|].
      apply not_elem_of_cons. split; [discriminate | apply not_elem_of_nil].
    + intros Hrest. apply IH in Hrest as (H1 & H2 & H3 & qs & Hq & Hw & Hc).
      cbn in *. repeat split; try assumption.
      eexists. rewrite Hq, <- app_assoc. split; [reflexivity|].
      split; [exact Hw|].
      apply not_elem_of_cons. split; [discriminate | exact Hc].
Qed.

Ltac loop_facts :=
  match goal with
  | H : ServerAdapter.hasChild_loop _ _ _ _ _ = _ |- _ =>
      apply hasChild_loop_reads in H as (? & ? & ? & ? & ? & ? & ?)
  end.

Ltac joins_leaf :=
  unfold joins_transaction, buffer, accesses_since; cbn in *;
  repeat match goal with
    | H : db _ = _ |- _ => rewrite H; clear H
    | H : next_txn _ = _ |- _ => rewrite H; clear H
    | H : trace _ = _ |- _ => rewrite H; clear H
    | H : txns _ = _ |- _ => rewrite H in *; clear H
    | H : default [] (txns _ !! _) = _ |- _ => rewrite H; clear H
    end;
  rewrite <- ?app_assoc; first [rewrite drop_all | rewrite drop_app_length];
  cbn; rewrite ?writes_of_app, ?writes_of_AWrite, ?lookup_insert_eq; cbn;
  repeat match goal with H : writes_of _ = [] |- _ => rewrite H; clear H end;
  rewrite ?lookup_insert_eq; cbn; rewrite <- ?app_assoc; cbn;
  split; [reflexivity|]; split; [reflexivity|]; split;
  [ repeat first [ assumption | apply not_elem_of_nil
                 | apply ACommit_not_write
                 | apply not_elem_of_cons; split; [discriminate|]
                 | apply not_elem_of_app; split ]
  | split;
    [ rewrite ?writes_of_app, ?writes_of_AWrite, ?app_nil_r; reflexivity
    | let t' := fresh "t" in
      let Ht := fresh "Ht" in
      intros t' Ht;
      repeat match goal with
        | H : forall t, t <> _ -> txns _ !! t = _ |- _ =>
            rewrite (H t' Ht); clear H
        end;
      rewrite ?lookup_insert_ne by congruence; reflexivity ] ].

Lemma create_joins drv cls a txn s :
  c_transaction a = Some txn ->
  joins_transaction txn s (snd (ServerAdapter.create drv cls a s)).
Proof.
  intros Htxn.
  destruct (ServerAdapter.create drv cls a s) as [r s'] eqn:Hrun.
  revert Hrun.
  unfold ServerAdapter.create, ServerAdapter.create_performTransaction.
  rewrite Htxn.
  unfold ServerAdapter.setAutonumber, doc_get, ServerAdapter.txn_set_this,
    new_Date, doc_auto, run_hook, ServerAdapter.run_validate, txn_write.
  run. cbn. exec.
  all: intros [= <- <-]; try callback_facts.
  all: joins_leaf.
Qed.

Lemma update_joins drv cls a txn s :
  e_transaction a = Some txn ->
  joins_transaction txn s (snd (ServerAdapter.update drv cls a s)).
Proof.
  intros Htxn.
  destruct (ServerAdapter.update drv cls a s) as [r s'] eqn:Hrun.
  revert Hrun.
  unfold ServerAdapter.update, ServerAdapter.update_performTransaction.
  rewrite Htxn.
  unfold doc, ServerAdapter.txn_set_this, new_Date, run_hook,
    ServerAdapter.run_validate, txn_write.
  run. cbn. exec.
  all: intros [= <- <-]; try callback_facts.
  all: joins_leaf.
Qed.

Lemma delete_joins drv cls a txn s :
  e_transaction a = Some txn ->
  joins_transaction txn s (snd (ServerAdapter.delete drv cls a s)).
Proof.
  intros Htxn.
  destruct (ServerAdapter.delete drv cls a s) as [r s'] eqn:Hrun.
  revert Hrun.
  unfold ServerAdapter.delete, ServerAdapter.delete_performTransaction,
    ServerAdapter.hasChild.
  rewrite Htxn.
  unfold doc, doc_get, run_hook, txn_write.
  run. cbn. exec.
  all: first [ intros [= <- <-] | intros Hcall ].
  all: try callback_facts; try loop_facts.
  all: joins_leaf.
Qed.

(** X21.  Given a transaction, [create], [update] and [delete] commit
    nothing and open no transaction, whether they return or fail: the
    documents are as they were, every write issued has joined the buffer
    of the transaction given, in order, and no other buffer has changed.
    Committing is left to the caller. *)
Theorem caller_transaction_is_left_open drv cls c e txn s :
  c_transaction c = Some txn ->
  e_transaction e = Some txn ->
  joins_transaction txn s (snd (ServerAdapter.create drv cls c s))
  /\ joins_transaction txn s (snd (ServerAdapter.update drv cls e s))
  /\ joins_transaction txn s (snd (ServerAdapter.delete drv cls e s)).
Proof.
  intros Hc He. split; [|split].
  - now apply create_joins.
  - now apply update_joins.
  - now apply delete_joins.
Qed.

Lemma caller_transaction_is_left_open_witness :
  let s := initial customer_c1 (customers_db ∪ counters) in
  joins_transaction 7 s
    (snd (ServerAdapter.create demo_driver Customers joined_create s))
  /\ joins_transaction 7 s
       (snd (ServerAdapter.update demo_driver Customers joined_edit s))
  /\ joins_transaction 7 s
       (snd (ServerAdapter.delete demo_driver Customers joined_edit s)).
Proof.
  intros s.
  apply (caller_transaction_is_left_open demo_driver Customers joined_create
           joined_edit 7 s); reflexivity.
Defined.

Ltac no_commit :=
  repeat first [ assumption | apply not_elem_of_nil
               | apply ACommit_not_write
               | apply not_elem_of_cons; split; [discriminate|]
               | apply not_elem_of_app; split ].

Ltac settle_leaf :=
  unfold settled, committed, untouched; cbn in *;
  rewrite ?lookup_insert_eq in *; cbn in *;
  repeat match goal with
    | H : txns _ = _ |- _ => rewrite H in *; clear H
    end;
  rewrite ?lookup_insert_eq in *; cbn in *;
  repeat match goal with
    | Hbuf : default [] (txns ?sc !! ?n) = _,
      Hw : apply_writes _ (default [] (txns ?sc !! ?n)) = _ |- _ =>
        rewrite Hbuf in Hw; clear Hbuf
    end;
  repeat match goal with
    | Hdb : db ?sc = _, Hw : apply_writes (db ?sc) _ = _ |- _ =>
        rewrite Hdb in Hw
    end;
  repeat match goal with
    | Hdb : db ?sc = db ?sd, Hw : apply_writes (db ?sc) _ = _ |- _ =>
        rewrite Hdb in Hw
    end;
  unfold accesses_since; cbn;
  repeat match goal with
    | H : db _ = _ |- _ => rewrite H; clear H
    | H : trace _ = _ |- _ => rewrite H; clear H
    end;
  rewrite <- ?app_assoc;
  first [rewrite drop_all | rewrite drop_app_length];
  first
    [ split; [reflexivity | cbn; no_commit]
    | split;
      [ rewrite ?app_assoc; eexists; split; [reflexivity | cbn; no_commit]
      | rewrite ?writes_of_app, ?writes_of_AWrite; cbn;
        repeat match goal with
          | H : writes_of _ = [] |- _ => rewrite H; clear H
          end;
        cbn in *; rewrite ?app_nil_r; assumption ] ].

Lemma create_settles drv cls a s :
  c_transaction a = None ->
  settled s (ServerAdapter.create drv cls a s).
Proof.
  intros Htxn.
  destruct (ServerAdapter.create drv cls a s) as [r s'] eqn:Hrun.
  revert Hrun.
  unfold ServerAdapter.create, ServerAdapter.create_performTransaction,
    runTransaction.
  rewrite Htxn.
  unfold ServerAdapter.setAutonumber, doc_get, ServerAdapter.txn_set_this,
    new_Date, doc_auto, run_hook, ServerAdapter.run_validate, txn_write.
  run. cbn. exec.
  all: intros [= <- <-]; try callback_facts.
  all: settle_leaf.
Qed.

Lemma update_settles drv cls a s :
  e_transaction a = None ->
  settled s (ServerAdapter.update drv cls a s).
Proof.
  intros Htxn.
  destruct (ServerAdapter.update drv cls a s) as [r s'] eqn:Hrun.
  revert Hrun.
  unfold ServerAdapter.update, ServerAdapter.update_performTransaction,
    runTransaction.
  rewrite Htxn.
  unfold doc, ServerAdapter.txn_set_this, new_Date, run_hook,
    ServerAdapter.run_validate, txn_write.
  run. cbn. exec.
  all: intros [= <- <-]; try callback_facts.
  all: settle_leaf.
Qed.

Lemma delete_settles drv cls a s :
  e_transaction a = None ->
  settled s (ServerAdapter.delete drv cls a s).
Proof.
  intros Htxn.
  destruct (ServerAdapter.delete drv cls a s) as [r s'] eqn:Hrun.
  revert Hrun.
  unfold ServerAdapter.delete, ServerAdapter.delete_performTransaction,
    ServerAdapter.hasChild, runTransaction.
  rewrite Htxn.
  unfold doc, doc_get, run_hook, txn_write.
  run. cbn. exec.
  all: intros [= <- <-]; try callback_facts; try loop_facts.
  all: settle_leaf.
Qed.

Lemma restore_settles cls docId prefix s :
  settled s (ServerAdapter.restore cls docId prefix s).
Proof.
  destruct (ServerAdapter.restore cls docId prefix s) as [r s'] eqn:Hrun.
  revert Hrun.
  unfold ServerAdapter.restore, doc_get, batch_commit. run. cbn. exec.
  all: intros [= <- <-].
  all: settle_leaf.
Qed.

(** X22.  Given no transaction, [create], [update] and [delete], and
    [restore] with its batch, commit once or not at all.  A call that
    returns has committed as its last access, and the documents are those
    the writes it issued give, applied in the order of issue; a call that
    fails has committed nothing and the documents are as they were. *)
Theorem own_transaction_settles drv cls c e docId prefix s :
  c_transaction c = None ->
  e_transaction e = None ->
  settled s (ServerAdapter.create drv cls c s)
  /\ settled s (ServerAdapter.update drv cls e s)
  /\ settled s (ServerAdapter.delete drv cls e s)
  /\ settled s (ServerAdapter.restore cls docId prefix s).
Proof.
  intros Hc He. repeat split.
  - now apply create_settles.
  - now apply update_settles.
  - now apply delete_settles.
  - apply restore_settles.
Qed.

Lemma own_transaction_settles_witness :
  let s := initial customer_c1 (customers_db ∪ counters) in
  settled s (ServerAdapter.create demo_driver Customers numbered_create s)
  /\ settled s (ServerAdapter.update demo_driver Customers plain_edit s)
  /\ settled s (ServerAdapter.delete demo_driver Customers plain_edit s)
  /\ settled s (ServerAdapter.restore Customers (Some (str "c1")) None s).
Proof.
  intros s.
  apply (own_transaction_settles demo_driver Customers numbered_create
           plain_edit (Some (str "c1")) None s); reflexivity.
Defined.
